(** * Save Screenshot: tile planning, scroll compensation and stitching

    A shallow embedding of [TakeScreenshot] (src/background.js) and of the
    services it relies on, together with the properties of the tile planner,
    the composite-buffer selection, the scroll compensator, the capture lock
    and the pixel copy; and of the file name functions [SanitizeFileName],
    [ApplyFilenameFormat] and [GetDefaultFileName], with the properties of
    the names they return.

    Number model.  Page and region quantities ([rw], [rh], [vw], [vh], [pw],
    [ph], tile origins and sizes) are integers, as the page reports them.
    The device scale [scl] is a JavaScript number that may be fractional
    (1.25, 1.5, ...): it is a rational here, and [Math.trunc] is truncation
    toward zero of a rational.  Binary floating-point rounding is not
    modelled.

    The classes [Mutex] and [JobQueue] that [TakeScreenshot] uses are not
    among the sources; they are modelled from the specification and marked
    as such. *)

From Stdlib Require Import ZArith QArith Lia List Bool.
From Stdlib.Strings Require Import Byte.
From stdpp Require Import base option list gmap strings pretty.

Local Open Scope Z_scope.

(** ** JavaScript numbers *)

Module JS.

(** [Math.trunc]: the integer part, rounding toward zero. *)
Definition trunc (q : Q) : Z := Z.quot (Qnum q) (Zpos (Qden q)).

(** An integer used as a JavaScript number. *)
Definition num (z : Z) : Q := inject_Z z.

(** [Number.MAX_SAFE_INTEGER], 2^53 - 1. *)
Definition MAX_SAFE_INTEGER : Z := 9007199254740991.

End JS.

(** ** Tile planner *)

(** One capture tile, in region-local coordinates: the [x, y, w, h] of the
    planner loop. *)
Record Tile := mkTile { tile_x : Z; tile_y : Z; tile_w : Z; tile_h : Z }.

(** The point [(px, py)] lies in the tile. *)
Definition covers (t : Tile) (px py : Z) : Prop :=
  (tile_x t <= px < tile_x t + tile_w t) /\
  (tile_y t <= py < tile_y t + tile_h t).

Definition tiles_disjoint (t1 t2 : Tile) : Prop :=
  forall px py, ~ (covers t1 px py /\ covers t2 px py).

Module Planner.

(** [const limits = [32767 / scl, 472907776 / (scl * scl)].map(Math.trunc)].
    The division is that of the rationals; it is JavaScript's for a scale
    other than zero, and the properties below are stated for a positive
    scale. *)
Definition limits (scl : Q) : Z * Z :=
  (JS.trunc (32767 / scl)%Q, JS.trunc (472907776 / (scl * scl))%Q).

(** [const one_canvas = Math.max(rw, rh) <= limits[0] && rw * rh <= limits[1]] *)
Definition one_canvas (rw rh : Z) (scl : Q) : bool :=
  (Z.max rw rh <=? fst (limits scl)) && (rw * rh <=? snd (limits scl)).

(** [const [totalWidth, totalHeight] = [rw, rh].map(x => Math.trunc(x * scl))] *)
Definition total (r : Z) (scl : Q) : Z := JS.trunc (JS.num r * scl)%Q.

(** [const [mw, mh] = (() => { ... })()]: the per-tile maxima.  The branch
    guarded by [false && ...] is never taken. *)
Definition tile_max (use_native : bool) (rw rh vw vh : Z) (scl : Q) : Z * Z :=
  let l0 := fst (limits scl) in
  if use_native
  then (Z.min (Z.min rw l0) 4095, Z.min (Z.min rh l0) 16383)
  else (Z.min (Z.min vw l0) 4095, Z.min (Z.min vh l0) 16383).

(** The inner loop [for (let x = 0; x < rw; x += mw)], entered at [x].
    [None] stands for a loop that has not finished within [fuel] rounds. *)
Fixpoint tiles_row (fuel : nat) (rw mw y h x : Z) : option (list Tile) :=
  if x <? rw then
    match fuel with
    | O => None
    | S fuel' =>
        let w := if x + mw <=? rw then mw else rw - x in
        match tiles_row fuel' rw mw y h (x + mw) with
        | Some rest => Some (mkTile x y w h :: rest)
        | None => None
        end
    end
  else Some [].

(** The outer loop [for (let y = 0; y < rh; y += mh)], entered at [y]. *)
Fixpoint tiles_rows (fuel : nat) (rw rh mw mh y : Z) : option (list Tile) :=
  if y <? rh then
    match fuel with
    | O => None
    | S fuel' =>
        let h := if y + mh <=? rh then mh else rh - y in
        match tiles_row (Z.to_nat rw) rw mw y h 0 with
        | Some row =>
            match tiles_rows fuel' rw rh mw mh (y + mh) with
            | Some rest => Some (row ++ rest)
            | None => None
            end
        | None => None
        end
    end
  else Some [].

(** The tiles of a request, in the order the loops visit them.  With steps
    of at least one pixel, [rh] rounds of the outer loop and [rw] rounds of
    the inner loop are enough; with a step that is not positive the loops
    do not end. *)
Definition plan (rw rh mw mh : Z) : option (list Tile) :=
  tiles_rows (Z.to_nat rh) rw rh mw mh 0.

End Planner.

(** ** Lists of pairwise related elements *)

Fixpoint pairwise {A : Type} (R : A -> A -> Prop) (l : list A) : Prop :=
  match l with
  | [] => True
  | a :: l' => Forall (R a) l' /\ pairwise R l'
  end.

(** ** Mutual-exclusion service *)

Module Mutex.

(** Modelled from the spec: the [Mutex] class that [TakeScreenshot]
    instantiates ([new Mutex({lock_time})], [mutex.lock], [mutex.unlock]) is
    not among the sources.  A lock entry carries the holder's token and the
    expiry timestamp of the lease. *)
Record Lock := mkLock { holder : Z; expiry : Z }.

(** Modelled from the spec: one [Mutex] object, with the token that
    identifies it as a holder and its default lease [lock_time] (ms). *)
Record t := mk { token : Z; lock_time : Z }.

(** Modelled from the spec: an entry counts as held at time [now] while its
    lease has not run out; an expired lease is treated as released. *)
Definition held (tbl : gmap string Lock) (key : string) (now : Z) : bool :=
  match tbl !! key with
  | Some l => now <? expiry l
  | None => false
  end.

(** Modelled from the spec: [who] is the holder of [key] at time [now]. *)
Definition holds (tbl : gmap string Lock) (key : string) (now : Z) (who : Z) : Prop :=
  exists l, tbl !! key = Some l /\ holder l = who /\ now < expiry l.

(** Modelled from the spec: [mutex.lock(key, {retry, lock_time})] called at
    time [now].  Without retry the call answers at once: [true] when the key
    was free (or its lease had expired) and is now held by the caller,
    [false] when it is held.  With retry the caller waits until the key is
    free, which with no release in between is when the current lease
    expires, and then takes it.  The result is the answer, the time at which
    the call comes back and the new table. *)
Definition lock (m : t) (key : string) (retry : bool) (lease : option Z)
    (now : Z) (tbl : gmap string Lock) : bool * Z * gmap string Lock :=
  let dur := default (lock_time m) lease in
  match tbl !! key with
  | Some l =>
      if now <? expiry l then
        if retry
        then (true, expiry l, <[key := mkLock (token m) (expiry l + dur)]> tbl)
        else (false, now, tbl)
      else (true, now, <[key := mkLock (token m) (now + dur)]> tbl)
  | None => (true, now, <[key := mkLock (token m) (now + dur)]> tbl)
  end.

(** Modelled from the spec: [mutex.unlock(key)] clears the entry whoever
    holds it; on a free key it changes nothing. *)
Definition unlock (key : string) (tbl : gmap string Lock) : gmap string Lock :=
  delete key tbl.

End Mutex.

(** ** Capture requests and the platform *)

Inductive Format := png | jpg | copy.

Inductive SaveMethod := save_open | save_saveas | save_silent.

(** The message [req] of [TakeScreenshot(req, tab)]. *)
Record Request := mkRequest {
  region_full : bool;          (* [req.region === 'full'] *)
  format : Format;
  left : Z; top : Z;           (* region origin, page pixels *)
  width : Z; height : Z;       (* [rw], [rh] *)
  vw : Z; vh : Z;              (* viewport size *)
  pw : Z; ph : Z;              (* page size *)
  sx : Z; sy : Z;              (* [req.scroll.sx], [req.scroll.sy] *)
  spx : Z; spy : Z;            (* [req.scroll.spx], [req.scroll.spy] *)
  dir_x : Z; dir_y : Z;        (* [req.direction] *)
  scale : Q
}.

(** [await Storage.get()], the fields the capture reads. *)
Record Prefs := mkPrefs {
  savemethod : SaveMethod;
  copynotification : bool;
  savenotification : bool
}.

(** What the request finds on the platform.  [uint8array_ok size] tells
    whether [new Uint8Array(size)] succeeds instead of throwing. *)
Record Env := mkEnv {
  BROWSER_VERSION_MAJOR : Z;
  badge : bool;
  drawWindow : bool;     (* [CanvasRenderingContext2D.prototype.drawWindow] *)
  tab_id : Z;
  prefs : Prefs;
  uint8array_ok : Z -> bool;
  mutex_token : Z        (* identity of this request's [new Mutex(...)] *)
}.

(** The times ([Date.now()], ms) at which the request arrives at its lock
    calls: the capture lock, the encode-worker lock and the lock call of the
    [finally] block. *)
Record Clock := mkClock { t_lock : Z; t_worker : Z; t_finally : Z }.

(** Style sheets handed to [insertCSS] / [removeCSS]: [css_reset], and the
    overlay that [applyCssScroll(x, y)] builds from the style snapshot. *)
Inductive Css := css_reset | css_shift (x y : Z).

(** Page scripts handed to [executeScript]. *)
Inductive Script := read_style | scrollTo (x y : Z).

Inductive Message :=
  | errorImageTooLarge | warningImageVeryLarge | warningWorkerBusy
  | info_screenshot_copied | info_screenshot_saved.

Inductive Title := badge_capturing | badge_saving | title_empty.
Inductive BadgeText := text_count (n : Z) | text_dots | text_empty.
Inductive Color := red | green | color_null.

Record Rect := mkRect { rect_x : Z; rect_y : Z; rect_width : Z; rect_height : Z }.

(** Calls that reach the browser, in the order they are issued. *)
Inductive Effect :=
  | EDisable | EEnable
  | ESetTitle (t : Title) | ESetBadgeText (b : BadgeText)
  | ESetBadgeBackgroundColor (c : Color)
  | EAlarm (m : Message) | ENotify (m : Message)
  | ECreateCanvas (w h : Z)
  | ENewUint8Array (size : Z)
  | EInsertCSS (c : Css) | ERemoveCSS (c : Css) | EExecuteScript (s : Script)
  | ECaptureTab (rect : option Rect) | EDrawWindow (rect : Rect)
  | ECaptureVisibleTab
  | EToDataURL | EWorker (f : Format)
  | EClipboardSetImageData | ETriggerOpen
  | EDownload (saveAs : bool) | ERevokeObjectURL.

Definition is_capture (e : Effect) : bool :=
  match e with
  | ECaptureTab _ | EDrawWindow _ | ECaptureVisibleTab => true
  | _ => false
  end.

Definition is_page_mutation (e : Effect) : bool :=
  match e with
  | EInsertCSS _ | ERemoveCSS _ | EExecuteScript (scrollTo _ _) => true
  | _ => false
  end.

Definition is_allocation (e : Effect) : bool :=
  match e with
  | ECreateCanvas _ _ | ENewUint8Array _ => true
  | _ => false
  end.

Definition is_delivery (e : Effect) : bool :=
  match e with
  | EDownload _ | ETriggerOpen | EClipboardSetImageData => true
  | _ => false
  end.

(** A call that neither captures, nor touches the page, nor allocates a
    composite buffer, nor delivers an image. *)
Definition harmless (e : Effect) : Prop :=
  is_capture e = false /\ is_page_mutation e = false /\
  is_allocation e = false /\ is_delivery e = false.

(** The number of capture calls in a log. *)
Definition count_captures (es : list Effect) : nat :=
  length (List.filter is_capture es).

(** The composite buffers created in a log. *)
Definition allocations (es : list Effect) : list Effect :=
  List.filter is_allocation es.

(** ** State of one request *)

(** The function bound to the variable [restoreScrollPosition]:
    [() => Promise.resolve()], or one of the three closures assigned to it. *)
Inductive RestoreFn := RestoreNothing | RestoreCss | RestoreJs | RestoreFull.

(** The composite buffer [content]. *)
Inductive Content := Surface (w h : Z) | RawBuffer (size : Z).

Record St := mkSt {
  locks : gmap string Mutex.Lock;   (* the lock table *)
  now : Z;                          (* current time *)
  restore : RestoreFn;              (* [restoreScrollPosition] *)
  tasks : list Css;                 (* [tasks]: style sheets to remove *)
  is_first : bool;                  (* [is_first] *)
  content : option Content;         (* [content] *)
  log : list Effect                 (* browser calls so far *)
}.

(** The state in which a request starts at time [t]:
    [let restoreScrollPosition = () => Promise.resolve()], nothing logged. *)
Definition init (tbl : gmap string Mutex.Lock) (t : Z) : St :=
  mkSt tbl t RestoreNothing [] true None [].

Definition set_locks (tbl : gmap string Mutex.Lock) (s : St) : St :=
  mkSt tbl (now s) (restore s) (tasks s) (is_first s) (content s) (log s).

Definition set_now (t : Z) (s : St) : St :=
  mkSt (locks s) t (restore s) (tasks s) (is_first s) (content s) (log s).

Definition set_restore (r : RestoreFn) (s : St) : St :=
  mkSt (locks s) (now s) r (tasks s) (is_first s) (content s) (log s).

Definition set_tasks (l : list Css) (s : St) : St :=
  mkSt (locks s) (now s) (restore s) l (is_first s) (content s) (log s).

Definition set_is_first (b : bool) (s : St) : St :=
  mkSt (locks s) (now s) (restore s) (tasks s) b (content s) (log s).

Definition set_content (c : Content) (s : St) : St :=
  mkSt (locks s) (now s) (restore s) (tasks s) (is_first s) (Some c) (log s).

Definition emits (es : list Effect) (s : St) : St :=
  mkSt (locks s) (now s) (restore s) (tasks s) (is_first s) (content s) (log s ++ es).

Definition emit (e : Effect) (s : St) : St := emits [e] s.

(** Time passes until [t], unless [t] is already over. *)
Definition wait_until (t : Z) (s : St) : St := set_now (Z.max (now s) t) s.

(** ** Scroll compensator *)

(** The offset [{x, y}] inside the captured viewport at which the tile
    content starts. *)
Record Pos := mkPos { pos_x : Z; pos_y : Z }.

(** [const js_scroll_restore = `window.scrollTo(${sx + spx}, ${sy + spy})`] *)
Definition js_scroll_restore (req : Request) : Script :=
  scrollTo (sx req + spx req) (sy req + spy req).

(** [resetScrollPosition]: insert [css_reset], then scroll to the origin. *)
Definition resetScrollPosition (s : St) : St :=
  emit (EExecuteScript (scrollTo 0 0)) (emit (EInsertCSS css_reset) s).

(** [applyCssScroll(x, y)]: insert the overlay, then remember to remove it. *)
Definition applyCssScroll (x y : Z) (s : St) : St :=
  let s := emit (EInsertCSS (css_shift x y)) s in
  set_tasks (tasks s ++ [css_shift x y]) s.

(** [updateScrollPosition] of the branch [if (use_css_croll)]. *)
Definition updateScrollPosition_css (req : Request) (x y w h : Z) (s : St)
    : Pos * St :=
  let _sx := if dir_x req >? 0 then x else - (pw req - x) + w in
  let _sy := if dir_y req >? 0 then y else - (ph req - y) + h in
  let apply (s : St) :=
    (mkPos (if dir_x req >? 0 then 0 else vw req - w)
           (if dir_y req >? 0 then 0 else vh req - h),
     applyCssScroll _sx _sy s) in
  if is_first s then
    let s := set_is_first false s in
    let no_scroll_x :=
      if dir_x req >? 0
      then (_sx >=? sx req) && (_sx + w <=? sx req + vw req)
      else (_sx <=? sx req) && (_sx - w >=? sx req - vw req) in
    let no_scroll_y :=
      if dir_y req >? 0
      then (_sy >=? sy req) && (_sy + h <=? sy req + vh req)
      else (_sy <=? sy req) && (_sy - h >=? sy req - vh req) in
    if no_scroll_x && no_scroll_y then
      (mkPos (if dir_x req >? 0 then _sx - sx req else vw req - (sx req - _sx + w))
             (if dir_y req >? 0 then _sy - sy req else vh req - (sy req - _sy + h)),
       s)
    else apply (resetScrollPosition s)
  else apply s.

(** [updateScrollPosition] of the branch [else if (use_js_scroll)]. *)
Definition updateScrollPosition_js (req : Request) (x y w h : Z) (s : St)
    : Pos * St :=
  let _sx := if dir_x req >? 0 then x else - (pw req - x) + w in
  let _sy := if dir_y req >? 0 then y else - (ph req - y) + h in
  let scroll (s : St) :=
    (mkPos (if x <=? pw req - vw req then 0 else vw req - w)
           (if y <=? ph req - vh req then 0 else vh req - h),
     resetScrollPosition s) in
  if is_first s then
    let s := set_is_first false s in
    let no_scroll_x :=
      if dir_x req >? 0
      then (_sx >=? sx req) && (_sx + w <=? sx req + vw req)
      else (_sx <=? sx req) && (_sx - w >=? sx req - vw req) in
    let no_scroll_y :=
      if dir_y req >? 0
      then (_sy >=? sy req) && (_sy + h <=? sy req + vh req)
      else (_sy <=? sy req) && (_sy - h >=? sy req - vh req) in
    if no_scroll_x && no_scroll_y then
      (mkPos (if dir_x req >? 0 then _sx - sx req else vw req - (sx req - _sx + w))
             (if dir_y req >? 0 then _sy - sy req else vh req - (sy req - _sy + h)),
       s)
    else scroll s
  else scroll s.

(** A call [restoreScrollPosition()] through the variable: the closure bound
    to it first rebinds the variable to [() => Promise.resolve()], then
    undoes the compensation.  [Promise.all(tasks.map(exec => exec()))] issues
    the [removeCSS] calls in the order of [tasks]. *)
Definition restoreScrollPosition (req : Request) (s : St) : St :=
  match restore s with
  | RestoreNothing => s
  | RestoreCss =>
      let s := set_restore RestoreNothing s in
      let s := emits (map ERemoveCSS (tasks s)) s in
      emit (EExecuteScript (js_scroll_restore req)) s
  | RestoreJs =>
      let s := set_restore RestoreNothing s in
      emit (EExecuteScript (js_scroll_restore req)) s
  | RestoreFull =>
      let s := set_restore RestoreNothing s in
      let s := emit (ERemoveCSS css_reset) s in
      emit (EExecuteScript (js_scroll_restore req)) s
  end.


(** ** Capture-and-stitch orchestrator

    [TakeScreenshot] is followed on the paths where the browser calls it
    awaits are fulfilled.  Two failures are part of the model: the capture
    lock that is not obtained and the composite buffer that cannot be
    allocated.  Rejections of the other calls, and with them the handler
    [catch (err)], are outside of it. *)

(** How control leaves a part of the [try] block: falling through to the
    next statement, by [return], or not at all. *)
Inductive Flow := Next (s : St) | Return (s : St) | Diverge.

(** [const scl = BROWSER_VERSION_MAJOR >= 82 ? req.scale : 1] *)
Definition scl (env : Env) (req : Request) : Q :=
  if BROWSER_VERSION_MAJOR env >=? 82 then scale req else 1%Q.

(** [const use_native = (BROWSER_VERSION_MAJOR >= 82
      || (scl == 1 && CanvasRenderingContext2D.prototype.drawWindow))] *)
Definition use_native (env : Env) (req : Request) : bool :=
  (BROWSER_VERSION_MAJOR env >=? 82) ||
  (Qeq_bool (scl env req) 1 && drawWindow env).

Definition use_css_croll (env : Env) (req : Request) : bool :=
  negb (use_native env req).

Definition use_js_scroll (env : Env) (req : Request) : bool :=
  negb (use_native env req) && negb (use_css_croll env req).

(** [const mutex = new Mutex({lock_time: 1000 * 60 * 5})] *)
Definition mutex (env : Env) : Mutex.t :=
  Mutex.mk (mutex_token env) (1000 * 60 * 5).

(** [const key = 'browserAction-' + tab.id] *)
Definition key (env : Env) : string := "browserAction-" +:+ pretty (tab_id env).

(** [await mutex.lock(key, {retry: false})] *)
Definition lock_tab (env : Env) (s : St) : bool * St :=
  let '(got, t', tbl) :=
    Mutex.lock (mutex env) (key env) false None (now s) (locks s) in
  (got, set_locks tbl (set_now t' s)).

(** [one_canvas] for the request. *)
Definition request_one_canvas (env : Env) (req : Request) : bool :=
  Planner.one_canvas (width req) (height req) (scl env req).

(** [totalWidth] and [totalHeight] for the request. *)
Definition totalWidth (env : Env) (req : Request) : Z :=
  Planner.total (width req) (scl env req).

Definition totalHeight (env : Env) (req : Request) : Z :=
  Planner.total (height req) (scl env req).

(** [let size = totalWidth * totalHeight * 4] *)
Definition buffer_size (env : Env) (req : Request) : Z :=
  totalWidth env req * totalHeight env req * 4.

(** The choice of the composite buffer, lines [if (one_canvas) ... else ...].
    A [new Uint8Array(size)] that throws leaves no call in the log. *)
Definition allocate (env : Env) (req : Request) (s : St) : Flow :=
  if request_one_canvas env req then
    Next (set_content (Surface (totalWidth env req) (totalHeight env req))
            (emit (ECreateCanvas (totalWidth env req) (totalHeight env req)) s))
  else
    let size := buffer_size env req in
    if (size <? JS.MAX_SAFE_INTEGER) && uint8array_ok env size then
      Next (emit (ENotify warningImageVeryLarge)
              (set_content (RawBuffer size) (emit (ENewUint8Array size) s)))
    else
      Return (emit (EAlarm errorImageTooLarge) s).

(** Installing the compensator: the branches [if (use_css_croll)],
    [else if (use_js_scroll)] and [if (req.region === 'full' && ...)]. *)
Definition setup_compensator (env : Env) (req : Request) (s : St) : St :=
  let use_scroll := use_css_croll env req || use_js_scroll env req in
  let s :=
    if use_css_croll env req then
      let s := set_tasks [css_reset] s in
      let s := set_restore RestoreCss s in
      set_is_first true (emit (EExecuteScript read_style) s)
    else if use_js_scroll env req then
      set_is_first true (set_restore RestoreJs s)
    else s in
  if region_full req && negb (use_css_croll env req) then
    let s :=
      if negb use_scroll && use_native env req
      then set_restore RestoreFull s else s in
    resetScrollPosition s
  else s.

(** [Math.ceil(a / b)] for a positive divisor. *)
Definition ceil_div (a b : Z) : Z := - ((- a) / b).

(** The jobs that one round of the inner loop pushes on [jobs], run in
    their order: the badge text, the compensation and the capture.  [count]
    is the value of the counter when the badge job runs. *)
Definition capture_tile (env : Env) (req : Request) (count : Z) (t : Tile)
    (s : St) : St :=
  let x := tile_x t in let y := tile_y t in
  let w := tile_w t in let h := tile_h t in
  let left := left req + x in
  let top := top req + y in
  let s := if badge env then emit (ESetBadgeText (text_count count)) s else s in
  if use_native env req then
    let _sx := if dir_x req >? 0 then left
               else Z.min (- (pw req - left) + vw req) (vw req - w) in
    let _sy := if dir_y req >? 0 then top
               else Z.min (- (ph req - top) + vh req) (vh req - h) in
    if BROWSER_VERSION_MAJOR env >=? 82
    then emit (ECaptureTab (Some (mkRect _sx _sy w h))) s
    else emit (EDrawWindow (mkRect _sx _sy w h)) s
  else
    let s :=
      if use_css_croll env req
      then snd (updateScrollPosition_css req left top w h s)
      else if use_js_scroll env req
      then snd (updateScrollPosition_js req left top w h s)
      else s in
    if BROWSER_VERSION_MAJOR env >=? 59
    then emit (ECaptureTab None) s
    else emit ECaptureVisibleTab s.

(** Modelled from the spec: the class [JobQueue] is not among the sources.
    [jobs.serial()] runs the queued jobs one after the other in the order
    in which the loops have pushed them. *)
Fixpoint capture_all (env : Env) (req : Request) (count : Z) (ts : list Tile)
    (s : St) : St :=
  match ts with
  | [] => s
  | t :: ts' => capture_all env req (count - 1) ts' (capture_tile env req count t s)
  end.

(** Turning the composite into image bytes: [toDataURL] for the drawable
    surface, the encode worker under the lock ['worker'] otherwise. *)
Definition encode (env : Env) (req : Request) (clk : Clock) (s : St) : St :=
  if request_one_canvas env req then
    emit EToDataURL s
  else
    let lock_time := 1000 * 60 * 15 in
    let s := wait_until (t_worker clk) s in
    let '(got, t, tbl) :=
      Mutex.lock (mutex env) "worker" false (Some lock_time) (now s) (locks s) in
    let s := set_locks tbl (set_now t s) in
    let s :=
      if got then s
      else
        let s := emit (ENotify warningWorkerBusy) s in
        let '(_, t, tbl) :=
          Mutex.lock (mutex env) "worker" true (Some lock_time) (now s) (locks s) in
        let s := set_locks tbl (set_now t s) in
        if badge env
        then emits [ESetTitle badge_saving; ESetBadgeText text_dots;
                    ESetBadgeBackgroundColor green] s
        else s in
    let s := emit (EWorker (format req)) s in
    set_locks (Mutex.unlock "worker" (locks s)) s.

(** The delivery: clipboard, the content script's link, or a download that
    completes. *)
Definition deliver (env : Env) (req : Request) (s : St) : St :=
  match format req with
  | copy =>
      let s := emit EClipboardSetImageData s in
      if copynotification (prefs env)
      then emit (ENotify info_screenshot_copied) s else s
  | _ =>
      match savemethod (prefs env) with
      | save_open => emit ETriggerOpen s
      | m =>
          let saveAs := match m with save_saveas => true | _ => false end in
          let s := emit (EDownload saveAs) s in
          let s := emit ERevokeObjectURL s in
          let s :=
            if negb saveAs && savenotification (prefs env)
            then emit (ENotify info_screenshot_saved) s else s in
          emit ERevokeObjectURL s
      end
  end.

(** [const [mw, mh] = ...] for the request. *)
Definition request_max (env : Env) (req : Request) : Z * Z :=
  Planner.tile_max (use_native env req) (width req) (height req)
    (vw req) (vh req) (scl env req).

(** The tiles that the loops visit for the request. *)
Definition request_tiles (env : Env) (req : Request) : option (list Tile) :=
  Planner.plan (width req) (height req)
    (fst (request_max env req)) (snd (request_max env req)).

(** From the compensator to the badge that announces the capture. *)
Definition prepare (env : Env) (req : Request) (s : St) : St :=
  let s := setup_compensator env req s in
  if badge env
  then emits [ESetTitle badge_capturing; ESetBadgeBackgroundColor red] s
  else s.

(** [let count = Math.ceil(rw / mw) * Math.ceil(rh / mh)] *)
Definition tile_count (env : Env) (req : Request) : Z :=
  ceil_div (width req) (fst (request_max env req)) *
  ceil_div (height req) (snd (request_max env req)).

(** From [.then(restoreScrollPosition)] to the end of the [try] block.
    [await decoding.parallel()] draws the decoded tiles into the composite
    (see [Composite] for the raw buffer) and calls nothing in the browser. *)
Definition finish (env : Env) (req : Request) (clk : Clock) (s : St) : St :=
  let s := restoreScrollPosition req s in
  let s :=
    if badge env
    then emits [ESetTitle badge_saving; ESetBadgeText text_dots;
                ESetBadgeBackgroundColor green] s
    else s in
  let s := emit EEnable s in
  let s := set_locks (Mutex.unlock (key env) (locks s)) s in
  let s := encode env req clk s in
  deliver env req s.

(** The [try] block. *)
Definition try_block (env : Env) (req : Request) (clk : Clock) (s : St) : Flow :=
  let '(got, s) := lock_tab env s in
  if negb got then Return s
  else
    let s := emit EDisable s in
    match allocate env req s with
    | Next s =>
        let s := prepare env req s in
        match request_tiles env req with
        | None => Diverge
        | Some ts =>
            Next (finish env req clk
                    (capture_all env req (tile_count env req) ts s))
        end
    | other => other
    end.

(** The [finally] block. *)
Definition finally_block (env : Env) (clk : Clock) (s : St) : St :=
  let '(got, s) := lock_tab env (wait_until (t_finally clk) s) in
  let s :=
    if got then
      let s :=
        if badge env
        then emits [ESetTitle title_empty; ESetBadgeText text_empty;
                    ESetBadgeBackgroundColor color_null] s
        else s in
      let s := emit EEnable s in
      set_locks (Mutex.unlock (key env) (locks s)) s
    else s in
  set_locks (Mutex.unlock "worker" (locks s)) s.

(** [TakeScreenshot(req, tab)], started on the lock table [tbl]: the state
    in which it ends, or [None] when the planner loop never ends. *)
Definition TakeScreenshot (env : Env) (req : Request) (clk : Clock)
    (tbl : gmap string Mutex.Lock) : option St :=
  match try_block env req clk (init tbl (t_lock clk)) with
  | Next s | Return s => Some (finally_block env clk s)
  | Diverge => None
  end.

(** ** The compensator's coordinates, in the words of the specification *)

(** The target scroll coordinate on one axis: the tile origin when the
    overflow direction is positive, and [-(pageSize - tileOrigin) + tileSize]
    when it is negative. *)
Definition target (dir origin pageSize tileSize : Z) : Z :=
  if dir >? 0 then origin else - (pageSize - origin) + tileSize.

(** The tile, addressed at [target], already lies within the viewport that
    is scrolled to [scroll]. *)
Definition in_view (dir target size scroll view : Z) : bool :=
  if dir >? 0
  then (target >=? scroll) && (target + size <=? scroll + view)
  else (target <=? scroll) && (target - size >=? scroll - view).

(** Where such a tile starts inside the viewport. *)
Definition view_offset (dir target size scroll view : Z) : Z :=
  if dir >? 0 then target - scroll else view - (scroll - target + size).

(** ** A sample platform and sample requests *)

(** Firefox 90 with the badge API, tab 17, silent saving. *)
Definition sample_env : Env :=
  mkEnv 90 true false 17 (mkPrefs save_silent false false) (fun _ => true) 1.

(** A request for the region [rw x rh] at the page origin, at device scale
    [k], in a 1280 x 720 viewport. *)
Definition sample_request (rw rh : Z) (k : Q) : Request :=
  mkRequest false png 0 0 rw rh 1280 720 rw rh 0 0 0 0 1 1 k.

Definition sample_clock : Clock := mkClock 1000 2000 3000.

(** A lock table in which another request (token 2) holds the capture lock
    of tab 17 until time 301000. *)
Definition sample_locked : gmap string Mutex.Lock :=
  {[ key sample_env := Mutex.mkLock 2 301000 ]}.

(** ** Pixel copy into the raw composite buffer

    The copy is followed for a whole-number device scale [scl]: the canvas
    sizes, the [getImageData] rectangles and the byte offsets handed to
    [content.set] are then integers.  With a fractional scale their rounding
    is the platform's and is not modelled. *)

Module Composite.

Definition Pixel : Type := (byte * byte * byte * byte)%type.

(** A 2D canvas after [drawImage]: its size and the colour of each pixel. *)
Record Canvas := mkCanvas {
  cv_width : Z;
  cv_height : Z;
  cv_pixel : Z -> Z -> Pixel
}.

(** The four bytes of the pixel at [(x, y)]; transparent black outside the
    canvas. *)
Definition pixel_bytes (cv : Canvas) (x y : Z) : list byte :=
  if (0 <=? x) && (x <? cv_width cv) && (0 <=? y) && (y <? cv_height cv)
  then let '(r, g, b, a) := cv_pixel cv x y in [r; g; b; a]
  else [Byte.x00; Byte.x00; Byte.x00; Byte.x00].

(** One row of [getImageData]: [sw] pixels from [(sx, y)] on. *)
Definition image_row (cv : Canvas) (sx sw y : Z) : list byte :=
  flat_map (fun c => pixel_bytes cv (sx + c) y) (seqZ 0 sw).

(** [ctx.getImageData(sx, sy, sw, sh).data]: the rows of the rectangle, top
    to bottom. *)
Definition getImageData (cv : Canvas) (sx sy sw sh : Z) : list byte :=
  flat_map (fun r => image_row cv sx sw (sy + r)) (seqZ 0 sh).

(** [content.set(data, offset)] on a [Uint8Array]: [None] is the
    [RangeError] raised when the data does not fit at the offset. *)
Definition set (content data : list byte) (offset : Z) : option (list byte) :=
  if (0 <=? offset) &&
     (offset + Z.of_nat (length data) <=? Z.of_nat (length content))
  then Some (take (Z.to_nat offset) content ++ data ++
             drop (Z.to_nat offset + length data) content)
  else None.

(** The branch [if (x == 0 && w == rw)]: the whole block in one call. *)
Definition copy_bulk (cv : Canvas) (content : list byte) (y w h rw scl : Z)
    : option (list byte) :=
  set content (getImageData cv 0 0 (w * scl) (h * scl)) (y * rw * scl * 4).

(** The loop [for (let i = 0; i < h * scl; i++)], entered at [i] with [n]
    rounds to go. *)
Fixpoint copy_rows_from (n : nat) (i : Z) (cv : Canvas) (content : list byte)
    (x y w rw scl : Z) : option (list byte) :=
  match n with
  | O => Some content
  | S n' =>
      match set content (getImageData cv 0 i (w * scl) 1)
                (((y + i) * rw * scl + x) * 4) with
      | Some content' => copy_rows_from n' (i + 1) cv content' x y w rw scl
      | None => None
      end
  end.

(** The [else] branch: row by row. *)
Definition copy_rows (cv : Canvas) (content : list byte) (x y w h rw scl : Z)
    : option (list byte) :=
  copy_rows_from (Z.to_nat (h * scl)) 0 cv content x y w rw scl.

(** The copy of one decoded tile, drawn on a canvas of its own, into
    [content]. *)
Definition copy_tile (image : Z -> Z -> Pixel) (content : list byte)
    (x y w h rw scl : Z) : option (list byte) :=
  let canvas := mkCanvas (w * scl) (h * scl) image in
  if (x =? 0) && (w =? rw)
  then copy_bulk canvas content y w h rw scl
  else copy_rows canvas content x y w h rw scl.

End Composite.

(** ** Loop invariants of the planner *)

(** What the inner loop, entered at [x] in the row [(y, h)], emits. *)
Definition row_ok (rw mw y h x : Z) (ts : list Tile) : Prop :=
  Forall (fun t => tile_y t = y /\ tile_h t = h /\ x <= tile_x t /\
                   0 < tile_w t /\ tile_x t + tile_w t <= rw /\
                   tile_w t = Z.min mw (rw - tile_x t) /\
                   exists i, 0 <= i /\ tile_x t = x + i * mw) ts /\
  (forall px, x <= px < rw ->
              exists t, t ∈ ts /\ tile_x t <= px < tile_x t + tile_w t) /\
  pairwise (fun t1 t2 => tile_x t1 + tile_w t1 <= tile_x t2) ts.

(** What the outer loop, entered at [y], emits. *)
Definition grid_ok (rw rh mw mh y : Z) (ts : list Tile) : Prop :=
  Forall (fun t => 0 <= tile_x t /\ y <= tile_y t /\
                   0 < tile_w t /\ 0 < tile_h t /\
                   tile_x t + tile_w t <= rw /\ tile_y t + tile_h t <= rh /\
                   tile_w t = Z.min mw (rw - tile_x t) /\
                   tile_h t = Z.min mh (rh - tile_y t) /\
                   exists i j, 0 <= i /\ 0 <= j /\
                               tile_x t = i * mw /\ tile_y t = y + j * mh) ts /\
  (forall px py, 0 <= px < rw -> y <= py < rh ->
                 exists t, t ∈ ts /\ covers t px py) /\
  pairwise tiles_disjoint ts.

(** ** Progress of a request *)


(** ** JavaScript strings

    A string is its sequence of UTF-16 code units. *)

Module Str.

(** The code units of a literal written in ASCII. *)
Definition lit (s : string) : list Z :=
  (fun a => Z.of_N (Ascii.N_of_ascii a)) <$> String.list_ascii_of_string s.

(** The class [\s] of a regular expression: the white space and line
    terminator code points, all of which are single code units. *)
Definition is_space (c : Z) : bool :=
  ((9 <=? c) && (c <=? 13)) || (c =? 32) || (c =? 160) || (c =? 5760) ||
  ((8192 <=? c) && (c <=? 8202)) || (c =? 8232) || (c =? 8233) ||
  (c =? 8239) || (c =? 8287) || (c =? 12288) || (c =? 65279).

(** [c] is one of the characters of the literal [s]. *)
Definition one_of (s : string) (c : Z) : bool :=
  existsb (Z.eqb c) (lit s).

(** [s.replace(/[class]+/g, by)] for a replacement without [$]: every
    maximal run of characters of the class becomes one copy of [by].
    [in_run] tells that the character before belongs to a run. *)
Fixpoint replace_runs_from (in_run : bool) (class : Z -> bool) (by_ : list Z)
    (s : list Z) : list Z :=
  match s with
  | [] => []
  | c :: s' =>
      if class c
      then (if in_run then [] else by_) ++ replace_runs_from true class by_ s'
      else c :: replace_runs_from false class by_ s'
  end.

Definition replace_runs (class : Z -> bool) (by_ : list Z) (s : list Z) : list Z :=
  replace_runs_from false class by_ s.

(** [s.replace(/[class]/g, '')] *)
Definition remove_all (class : Z -> bool) (s : list Z) : list Z :=
  List.filter (fun c => negb (class c)) s.

(** [s.replace(/[class]/g, by)] for a replacement of one character. *)
Definition replace_each (class : Z -> bool) (by_ : Z) (s : list Z) : list Z :=
  (fun c => if class c then by_ else c) <$> s.

(** [s.replace(/^[class]+/, '')] *)
Fixpoint strip_start (class : Z -> bool) (s : list Z) : list Z :=
  match s with
  | [] => []
  | c :: s' => if class c then strip_start class s' else s
  end.

(** [s.replace(/[class]+$/, '')] *)
Fixpoint strip_end (class : Z -> bool) (s : list Z) : list Z :=
  match s with
  | [] => []
  | c :: s' =>
      match strip_end class s' with
      | [] => if class c then [] else [c]
      | rest => c :: rest
      end
  end.

(** The index of the first occurrence of the two characters [a b]. *)
Fixpoint index_of2 (a b : Z) (s : list Z) : option nat :=
  match s with
  | c :: s' =>
      match s' with
      | d :: _ =>
          if (c =? a) && (d =? b) then Some O
          else S <$> index_of2 a b s'
      | [] => None
      end
  | [] => None
  end.

(** The expansion of a replacement string for a pattern without capture
    groups: [$$] is a dollar sign, [$&] the match, [$`] the text before it,
    [$'] the text after it, and any other [$] stands for itself. *)
Fixpoint substitution (matched before after replacement : list Z) : list Z :=
  match replacement with
  | [] => []
  | c :: r =>
      match r with
      | d :: r' =>
          if c =? 36 then
            if d =? 36 then 36 :: substitution matched before after r'
            else if d =? 38 then matched ++ substitution matched before after r'
            else if d =? 96 then before ++ substitution matched before after r'
            else if d =? 39 then after ++ substitution matched before after r'
            else c :: substitution matched before after r
          else c :: substitution matched before after r
      | [] => [c]
      end
  end.

(** [s.replace(/ab/, replacement)] for a pattern of two literal characters:
    the first occurrence only. *)
Definition replace_first2 (a b : Z) (replacement : list Z) (s : list Z) : list Z :=
  match index_of2 a b s with
  | Some i =>
      take i s ++
      substitution [a; b] (take i s) (drop (i + 2) s) replacement ++
      drop (i + 2) s
  | None => s
  end.

(** [s.padStart(2, '0')] *)
Definition padStart2 (s : list Z) : list Z :=
  replicate (2 - length s) 48 ++ s.

(** [String(n)] for an integer. *)
Definition of_Z (n : Z) : list Z := lit (pretty n).

(** [s.substring(s.lastIndexOf('/') + 1)]: what follows the last slash, all
    of [s] when there is none. *)
Fixpoint after_last_slash (s : list Z) : list Z :=
  match s with
  | [] => []
  | c :: s' =>
      if existsb (Z.eqb 47) s' then after_last_slash s'
      else if c =? 47 then s' else s
  end.

End Str.

(** ** File names *)

(** The character classes of the regular expressions of
    [SanitizeFileName], in the order of the source.  The class of special
    characters also holds the double quote, code 34; in the class of
    leading characters the hyphen stands for itself. *)
Definition is_opening (c : Z) : bool := Str.one_of "<{" c.
Definition is_closing (c : Z) : bool := Str.one_of ">}" c.
Definition is_special (c : Z) : bool := Str.one_of "#$%!&*'?/:\@|" c || (c =? 34).
Definition is_leading (c : Z) : bool := Str.is_space c || Str.one_of "-." c.
Definition is_trailing (c : Z) : bool := Str.is_space c || Str.one_of "." c.

(** "Sanitizes" given string to be used as file name. *)
Definition SanitizeFileName (aFileName : list Z) : list Z :=
  let aFileName := Str.replace_runs is_opening (Str.lit "(") aFileName in
  let aFileName := Str.replace_runs is_closing (Str.lit ")") aFileName in
  let aFileName := Str.remove_all is_special aFileName in
  let aFileName := Str.strip_start is_leading aFileName in
  let aFileName := Str.strip_end is_trailing aFileName in
  Str.replace_runs Str.is_space (Str.lit " ") aFileName.

(** A character that [SanitizeFileName] takes out of a name. *)
Definition forbidden (c : Z) : bool :=
  is_opening c || is_closing c || is_special c.

(** Every white space character of the string is a space (U+0020) that is
    not followed by white space. *)
Fixpoint single_spaces (s : list Z) : Prop :=
  match s with
  | [] => True
  | c :: s' =>
      (Str.is_space c = true ->
       c = 32 /\ match s' with d :: _ => Str.is_space d = false | [] => True end) /\
      single_spaces s'
  end.

(** A name as [SanitizeFileName] leaves it: free of the characters it takes
    out, not starting with white space, a hyphen or a dot, not ending with
    white space or a dot, and with single spaces as its only white space. *)
Definition clean_name (s : list Z) : Prop :=
  Forall (fun c => forbidden c = false) s /\
  (forall c, head s = Some c -> is_leading c = false) /\
  (forall c, last s = Some c -> is_trailing c = false) /\
  single_spaces s.

(** The tab of [TakeScreenshot(req, tab)] as the file name code reads it.
    Parsing [tab.url] is the platform's: the [hostname] and the [pathname]
    of [new URL(tab.url)] are given with the tab. *)
Record Tab := mkTab {
  title : list Z;
  url : list Z;
  hostname : list Z;
  pathname : list Z
}.

(** [new Date()] as its local-time getters report it; [getMonth] counts
    from zero. *)
Record Date := mkDate {
  getFullYear : Z; getMonth : Z; getDate : Z;
  getHours : Z; getMinutes : Z; getSeconds : Z
}.

(** Replaces format character sequences with the actual values. *)
Definition ApplyFilenameFormat (now : Date) (aFormat : list Z) (tab : Tab) : list Z :=
  let aFormat := Str.replace_first2 37 89 (Str.of_Z (getFullYear now)) aFormat in
  let aFormat :=
    Str.replace_first2 37 109 (Str.padStart2 (Str.of_Z (getMonth now + 1))) aFormat in
  let aFormat :=
    Str.replace_first2 37 100 (Str.padStart2 (Str.of_Z (getDate now))) aFormat in
  let aFormat :=
    Str.replace_first2 37 72 (Str.padStart2 (Str.of_Z (getHours now))) aFormat in
  let aFormat :=
    Str.replace_first2 37 77 (Str.padStart2 (Str.of_Z (getMinutes now))) aFormat in
  let aFormat :=
    Str.replace_first2 37 83 (Str.padStart2 (Str.of_Z (getSeconds now))) aFormat in
  let aFormat := Str.replace_first2 37 116 (title tab) aFormat in
  let aFormat :=
    Str.replace_first2 37 117
      (Str.replace_each (Str.one_of "/?") 45
         (Str.replace_each (Str.one_of ":") 46 (url tab))) aFormat in
  Str.replace_first2 37 104 (hostname tab) aFormat.

(** Gets the default file name, used for saving the screenshot.  A string
    is taken in a condition as true when it is not empty. *)
Definition GetDefaultFileName (now : Date) (aDefaultFileName : list Z) (tab : Tab)
    (aFilenameFormat : list Z) : list Z :=
  let formatted := SanitizeFileName (ApplyFilenameFormat now aFilenameFormat tab) in
  match formatted with
  | _ :: _ => formatted
  | [] =>
      let title := SanitizeFileName (title tab) in
      match title with
      | _ :: _ => title
      | [] =>
          let path := pathname tab in
          let filename :=
            match path with
            | _ :: _ => SanitizeFileName (Str.after_last_slash path)
            | [] => []
            end in
          match filename with
          | _ :: _ => filename
          | [] => aDefaultFileName
          end
      end
  end.

(** [format[0]], the file extension of the output format. *)
Definition extension (f : Format) : list Z :=
  match f with
  | png => Str.lit "png"
  | jpg => Str.lit "jpg"
  | copy => Str.lit "png"
  end.

(** [const filename = GetDefaultFileName('saved_page', tab,
    prefs.filenameformat) + '.' + format[0]] *)
Definition filename (now : Date) (tab : Tab) (filenameformat : list Z)
    (f : Format) : list Z :=
  GetDefaultFileName now (Str.lit "saved_page") tab filenameformat ++
  Str.lit "." ++ extension f.
(** ** Stitching the tiles into the raw composite buffer *)

(** Modelled from the spec: the class [JobQueue] is not among the sources.
    [await decoding.parallel()] runs every queued decode job once, in no
    given order.  On the raw buffer the decoded tiles are copied into
    [content] one after the other, in the order [ts] in which their jobs
    come to run.  [images t] is the canvas content drawn for the tile
    [t]. *)
Fixpoint stitch (images : Tile -> Z -> Z -> Composite.Pixel) (ts : list Tile)
    (content : list byte) (rw scl : Z) : option (list byte) :=
  match ts with
  | [] => Some content
  | t :: ts' =>
      match Composite.copy_tile (images t) content
              (tile_x t) (tile_y t) (tile_w t) (tile_h t) rw scl with
      | Some content' => stitch images ts' content' rw scl
      | None => None
      end
  end.

(** The four bytes of a pixel. *)
Definition bytes_of (p : Composite.Pixel) : list byte :=
  let '(r, g, b, a) := p in [r; g; b; a].

(** The bytes of the pixel [(px, py)] in a buffer that holds an image of
    [rw] pixels a row. *)
Definition pixel_at (content : list byte) (rw px py : Z) : list byte :=
  take 4 (drop (Z.to_nat ((py * rw + px) * 4)) content).

(** ** The browser calls of each part of a request *)

(** [s'] is [s] after further browser calls, all of them of the kind [Q]. *)
Definition logs (Q : Effect -> bool) (s s' : St) : Prop :=
  exists es, log s' = log s ++ es /\ Forall (fun e => Q e = true) es.

(** The calls of the choice of the composite buffer. *)
Definition of_allocate (e : Effect) : bool :=
  match e with
  | ECreateCanvas _ _ | ENewUint8Array _
  | ENotify warningImageVeryLarge | EAlarm errorImageTooLarge => true
  | _ => false
  end.

(** The calls made between the allocation and the first capture job. *)
Definition of_prepare (e : Effect) : bool :=
  match e with
  | EExecuteScript read_style | EInsertCSS css_reset
  | EExecuteScript (scrollTo 0 0)
  | ESetTitle badge_capturing | ESetBadgeBackgroundColor red => true
  | _ => false
  end.

(** The calls of the capture jobs. *)
Definition of_capture (e : Effect) : bool :=
  match e with
  | ESetBadgeText (text_count _)
  | ECaptureTab _ | EDrawWindow _ | ECaptureVisibleTab
  | EInsertCSS _ | EExecuteScript (scrollTo 0 0) => true
  | _ => false
  end.

(** The calls of [restoreScrollPosition]. *)
Definition of_restore (e : Effect) : bool :=
  match e with
  | ERemoveCSS _ | EExecuteScript (scrollTo _ _) => true
  | _ => false
  end.

(** The calls made after the scroll position is restored: badge, encoding
    and delivery. *)
Definition of_delivery (e : Effect) : bool :=
  match e with
  | ESetTitle badge_saving | ESetBadgeText text_dots
  | ESetBadgeBackgroundColor green | EEnable
  | EToDataURL | EWorker _ | ENotify warningWorkerBusy
  | EClipboardSetImageData | ENotify info_screenshot_copied
  | ETriggerOpen | EDownload _ | ERevokeObjectURL
  | ENotify info_screenshot_saved => true
  | _ => false
  end.

(** The calls of the [finally] block. *)
Definition of_finally (e : Effect) : bool :=
  match e with
  | ESetTitle title_empty | ESetBadgeText text_empty
  | ESetBadgeBackgroundColor color_null | EEnable => true
  | _ => false
  end.

(** The capture call of a tile under native capture: [captureTab] with the
    rectangle from version 82 on, the [DrawWindow] message before. *)
Definition native_call (env : Env) (rect : Rect) : Effect :=
  if BROWSER_VERSION_MAJOR env >=? 82
  then ECaptureTab (Some rect) else EDrawWindow rect.

(** The composite buffer of the request can be created. *)
Definition allocates (env : Env) (req : Request) : Prop :=
  request_one_canvas env req = true \/
  (buffer_size env req < JS.MAX_SAFE_INTEGER /\
   uint8array_ok env (buffer_size env req) = true).

(** The state of a request when its capture jobs are about to run. *)
Definition before_capture (env : Env) (req : Request) (s0 : St) : St :=
  match allocate env req (emit EDisable s0) with
  | Next s1 => prepare env req s1
  | Return s1 => s1
  | Diverge => s0
  end.

(** The badge texts of a log that show a count. *)
Definition is_count (e : Effect) : bool :=
  match e with
  | ESetBadgeText (text_count _) => true
  | _ => false
  end.

(** The compensation calls of a capture job. *)
Definition of_compensate (e : Effect) : bool :=
  match e with
  | EInsertCSS _ | EExecuteScript (scrollTo 0 0) => true
  | _ => false
  end.

(** The capture call of the tile [t]: under native capture the rectangle of
    the tile in the page, otherwise the visible part of the tab. *)
Definition capture_call (env : Env) (req : Request) (t : Tile) : Effect :=
  if use_native env req then
    let left := left req + tile_x t in
    let top := top req + tile_y t in
    let _sx := if dir_x req >? 0 then left
               else Z.min (- (pw req - left) + vw req) (vw req - tile_w t) in
    let _sy := if dir_y req >? 0 then top
               else Z.min (- (ph req - top) + vh req) (vh req - tile_h t) in
    native_call env (mkRect _sx _sy (tile_w t) (tile_h t))
  else if BROWSER_VERSION_MAJOR env >=? 59 then ECaptureTab None
  else ECaptureVisibleTab.


(** The badge texts of the capture jobs: the counter, counted down from
    [count] once a tile. *)
Fixpoint countdown (count : Z) (n : nat) : list Effect :=
  match n with
  | O => []
  | S n' => ESetBadgeText (text_count count) :: countdown (count - 1) n'
  end.

(** The calls between the restoring of the scroll position and the
    delivery: badge, toolbar button and encoding. *)
Definition of_encode (e : Effect) : bool :=
  match e with
  | ESetTitle badge_saving | ESetBadgeText text_dots
  | ESetBadgeBackgroundColor green | EEnable
  | EToDataURL | EWorker _ | ENotify warningWorkerBusy => true
  | _ => false
  end.

(** The calls made before the first capture job. *)
Definition of_start (e : Effect) : bool :=
  match e with
  | EDisable => true
  | _ => of_allocate e || of_prepare e
  end.

(** What the variable [restoreScrollPosition] and the list [tasks] know of
    the changes made to the page so far: with no closure bound the page is
    untouched; the closure of the transform-based strategy has every
    inserted style sheet in [tasks]; the closure of the full-region reset
    faces no style sheet but [css_reset]. *)
Definition undoable (s : St) : Prop :=
  match restore s with
  | RestoreNothing => Forall (fun e => is_page_mutation e = false) (log s)
  | RestoreCss =>
      css_reset ∈ tasks s /\ forall c, EInsertCSS c ∈ log s -> c ∈ tasks s
  | RestoreJs => False
  | RestoreFull => forall c, EInsertCSS c ∈ log s -> c = css_reset
  end.

(** The closure bound to [restoreScrollPosition] when the capture jobs
    start. *)
Definition restore_of (env : Env) (req : Request) : RestoreFn :=
  if use_native env req
  then (if region_full req then RestoreFull else RestoreNothing)
  else RestoreCss.

(** Firefox 60, where a tile is captured as the visible part of the tab
    and the page is shifted by style sheets. *)
Definition legacy_env : Env :=
  mkEnv 60 true false 17 (mkPrefs save_silent false false) (fun _ => true) 1.

(** A request for the full page of [pw x ph] pixels, in a 1280 x 720
    viewport scrolled to [(0, sy)]. *)
Definition page_request (pw ph sy : Z) : Request :=
  mkRequest true png 0 0 pw ph 1280 720 pw ph 0 sy 0 0 1 1 1.





(** ** Drawing the tiles on the drawable surface

    As for the raw buffer, the drawing is followed for a whole-number
    device scale [scl]. *)

(** The destination rectangle of
    [content.drawImage(img, pos.x * scl, pos.y * scl, w * scl, h * scl,
                            x * scl, y * scl, w * scl, h * scl)]. *)
Definition draw_dest (t : Tile) (scl : Z) : Rect :=
  mkRect (tile_x t * scl) (tile_y t * scl) (tile_w t * scl) (tile_h t * scl).

(** The device pixel [(px, py)] lies in the rectangle. *)
Definition in_rect (r : Rect) (px py : Z) : Prop :=
  (rect_x r <= px < rect_x r + rect_width r) /\
  (rect_y r <= py < rect_y r + rect_height r).

(** * Properties *)

(** ** Pairwise related lists *)

Section Pairwise.
Context {A : Type} (R : A -> A -> Prop).

Lemma pairwise_app (l1 l2 : list A) :
  pairwise R l1 -> pairwise R l2 ->
  (forall a b, a ∈ l1 -> b ∈ l2 -> R a b) ->
  pairwise R (l1 ++ l2).
Proof.
  induction l1 as [|a l1 IH]; simpl; intros H1 H2 Hx; [exact H2|].
  destruct H1 as [Ha H1]. split.
  - apply Forall_app. split; [exact Ha|].
    apply Forall_forall. intros b Hb. apply Hx; [left | exact Hb].
  - apply IH; auto. intros a' b Ha' Hb. apply Hx; [by right | exact Hb].
Qed.

Lemma pairwise_lookup_lt (l : list A) (i j : nat) (a b : A) :
  pairwise R l -> (i < j)%nat -> l !! i = Some a -> l !! j = Some b -> R a b.
Proof.
  revert i j. induction l as [|c l IH]; intros i j Hp Hij Hi Hj; [done|].
  destruct Hp as [Hc Hp]. destruct j as [|j]; [lia|].
  destruct i as [|i]; simpl in *.
  - injection Hi as ->. rewrite Forall_forall in Hc. apply Hc.
    by eapply list_elem_of_lookup_2.
  - eapply (IH i j); eauto. lia.
Qed.

Lemma pairwise_lookup (l : list A) (i j : nat) (a b : A) :
  (forall x y, R x y -> R y x) ->
  pairwise R l -> i <> j -> l !! i = Some a -> l !! j = Some b -> R a b.
Proof.
  intros Hsym Hp Hij Hi Hj.
  destruct (decide (i < j)%nat).
  - eapply pairwise_lookup_lt; eauto.
  - apply Hsym. eapply (pairwise_lookup_lt l j i); eauto. lia.
Qed.

End Pairwise.

(** ** The planner's grid *)

Module PlannerFacts.
Import Planner.

Lemma tiles_row_ok (rw mw y h : Z) (fuel : nat) (x : Z) :
  0 < mw -> 0 <= x -> rw - x <= Z.of_nat fuel * mw ->
  exists ts, tiles_row fuel rw mw y h x = Some ts /\ row_ok rw mw y h x ts.
Proof.
  intros mw_pos. revert x. induction fuel as [|fuel IH]; intros x Hx Hfuel.
  - simpl. destruct (Z.ltb_spec x rw); [lia|].
    exists []. split; [done|]. repeat split; [constructor | intros; lia].
  - simpl. destruct (Z.ltb_spec x rw) as [Hlt|Hge].
    + destruct (IH (x + mw)) as (rest & -> & Hall & Hcov & Hpw); [lia|lia|].
      eexists. split; [reflexivity|].
      set (w := if x + mw <=? rw then mw else rw - x).
      assert (Hw : w = Z.min mw (rw - x) /\ 0 < w /\ x + w <= rw /\ w <= mw).
      { subst w. destruct (Z.leb_spec (x + mw) rw); lia. }
      destruct Hw as (Hw1 & Hw2 & Hw3 & Hw4).
      repeat split.
      * constructor; simpl.
        { repeat split; try lia. exists 0. lia. }
        eapply Forall_impl; [exact Hall|]. simpl.
        intros t (? & ? & ? & ? & ? & ? & i & Hi & Hxi).
        repeat split; try lia. exists (i + 1). lia.
      * intros px Hpx. destruct (Z.lt_ge_cases px (x + mw)) as [Hin|Hout].
        -- exists (mkTile x y w h). split; [left|]. simpl.
           destruct (Z.leb_spec (x + mw) rw); subst w; lia.
        -- destruct (Hcov px) as (t & Ht & Hpt); [lia|].
           exists t. split; [by right | exact Hpt].
      * simpl. eapply Forall_impl; [exact Hall|]. simpl. intros t Ht. lia.
      * exact Hpw.
    + exists []. split; [done|]. repeat split; [constructor | intros; lia].
Qed.

Lemma row_disjoint (rw mw y h x : Z) (ts : list Tile) :
  row_ok rw mw y h x ts -> pairwise tiles_disjoint ts.
Proof.
  intros (_ & _ & Hpw). induction ts as [|t ts IH]; [done|].
  destruct Hpw as [Ht Hpw]. split; [|by apply IH].
  eapply Forall_impl; [exact Ht|]. simpl.
  intros t2 Hle px py [[Hx1 _] [Hx2 _]]. lia.
Qed.

Lemma tiles_rows_ok (rw rh mw mh : Z) (fuel : nat) (y : Z) :
  0 < rw -> 0 < mw -> 0 < mh ->
  0 <= y -> rh - y <= Z.of_nat fuel * mh ->
  exists ts, tiles_rows fuel rw rh mw mh y = Some ts /\ grid_ok rw rh mw mh y ts.
Proof.
  intros rw_pos mw_pos mh_pos.
  revert y. induction fuel as [|fuel IH]; intros y Hy Hfuel.
  - simpl. destruct (Z.ltb_spec y rh); [lia|].
    exists []. split; [done|]. repeat split; [constructor | intros; lia].
  - simpl. destruct (Z.ltb_spec y rh) as [Hlt|Hge].
    + set (h := if y + mh <=? rh then mh else rh - y).
      assert (Hh : h = Z.min mh (rh - y) /\ 0 < h /\ y + h <= rh /\ h <= mh).
      { subst h. destruct (Z.leb_spec (y + mh) rh); lia. }
      destruct Hh as (Hh1 & Hh2 & Hh3 & Hh4).
      destruct (tiles_row_ok rw mw y h (Z.to_nat rw) 0 mw_pos)
        as (row & -> & Hrow); [lia|nia|].
      destruct (IH (y + mh)) as (rest & -> & Hall & Hcov & Hpw); [lia|lia|].
      eexists. split; [reflexivity|].
      pose proof (row_disjoint _ _ _ _ _ _ Hrow) as Hrd.
      destruct Hrow as (Hrall & Hrcov & _).
      rewrite Forall_forall in Hrall. rewrite Forall_forall in Hall.
      repeat split.
      * apply Forall_app. split; apply Forall_forall; intros t Ht.
        -- destruct (Hrall t Ht) as (? & ? & ? & ? & ? & ? & i & Hi & Hxi).
           repeat split; try lia. exists i, 0. lia.
        -- destruct (Hall t Ht) as (? & ? & ? & ? & ? & ? & ? & ? & i & j & Hi & Hj & Hxi & Hyj).
           repeat split; try lia. exists i, (j + 1). lia.
      * intros px py Hpx Hpy.
        destruct (Z.lt_ge_cases py (y + mh)) as [Hin|Hout].
        -- destruct (Hrcov px) as (t & Ht & Hpt); [lia|].
           exists t. split; [apply elem_of_app; by left|].
           specialize (Hrall t Ht). split; [exact Hpt|]. lia.
        -- destruct (Hcov px py) as (t & Ht & Hpt); [lia|lia|].
           exists t. split; [apply elem_of_app; by right | exact Hpt].
      * apply pairwise_app; [exact Hrd | exact Hpw |].
        intros a b Ha Hb px py [[_ Hya] [_ Hyb]].
        specialize (Hrall a Ha). specialize (Hall b Hb). lia.
    + exists []. split; [done|]. repeat split; [constructor | intros; lia].
Qed.

Lemma tiles_disjoint_sym (t1 t2 : Tile) :
  tiles_disjoint t1 t2 -> tiles_disjoint t2 t1.
Proof. intros H px py [H2 H1]. by apply (H px py). Qed.

(** The planner loop ends and its tiles satisfy the grid invariant. *)
Lemma plan_grid (rw rh mw mh : Z) :
  0 < rw -> 0 < rh -> 0 < mw -> 0 < mh ->
  exists ts, plan rw rh mw mh = Some ts /\ grid_ok rw rh mw mh 0 ts.
Proof.
  intros Hrw Hrh Hmw Hmh. unfold plan.
  apply tiles_rows_ok; [lia..|nia].
Qed.

(** C1.  For positive region width and height and positive per-tile
    maxima the planner loop finishes, every tile it emits sits at its
    origin [(x, y)] with width [min mw (rw - x)] and height
    [min mh (rh - y)], and the tiles partition [[0,rw) x [0,rh)]: a point
    belongs to the region exactly when some tile covers it, and two tiles
    at different positions of the list share no point.  The origins are
    the multiples of [mw] and of [mh] that the loops step through. *)
Theorem plan_partitions_region (rw rh mw mh : Z) :
  0 < rw -> 0 < rh -> 0 < mw -> 0 < mh ->
  exists ts,
    plan rw rh mw mh = Some ts /\
    (forall t, t ∈ ts ->
               (exists i j, 0 <= i /\ 0 <= j /\
                            tile_x t = i * mw /\ tile_y t = j * mh) /\
               tile_w t = Z.min mw (rw - tile_x t) /\
               tile_h t = Z.min mh (rh - tile_y t)) /\
    (forall px py,
        (0 <= px < rw /\ 0 <= py < rh) <-> (exists t, t ∈ ts /\ covers t px py)) /\
    (forall (i j : nat) t1 t2,
        i <> j -> ts !! i = Some t1 -> ts !! j = Some t2 ->
        tiles_disjoint t1 t2).
Proof.
  intros Hrw Hrh Hmw Hmh.
  destruct (plan_grid rw rh mw mh Hrw Hrh Hmw Hmh)
    as (ts & Hts & Hall & Hcov & Hpw).
  exists ts. split; [exact Hts|]. rewrite Forall_forall in Hall.
  split; [|split].
  - intros t Ht.
    destruct (Hall t Ht) as (_ & _ & _ & _ & _ & _ & Hw & Hh & i & j & Hi & Hj & Hx & Hy).
    split; [|by split]. exists i, j. rewrite Z.add_0_l in Hy. auto.
  - intros px py. split.
    + intros [Hpx Hpy]. by apply Hcov.
    + intros (t & Ht & [Hx Hy]). specialize (Hall t Ht). lia.
  - intros i j t1 t2 Hij Hi Hj.
    eapply pairwise_lookup; eauto using tiles_disjoint_sym.
Qed.

(** The theorem at a 5 x 3 region cut into tiles of at most 2 x 2. *)
Lemma plan_partitions_region_witness :
  exists ts,
    plan 5 3 2 2 = Some ts /\
    (forall t, t ∈ ts ->
               (exists i j, 0 <= i /\ 0 <= j /\
                            tile_x t = i * 2 /\ tile_y t = j * 2) /\
               tile_w t = Z.min 2 (5 - tile_x t) /\
               tile_h t = Z.min 2 (3 - tile_y t)) /\
    (forall px py,
        (0 <= px < 5 /\ 0 <= py < 3) <-> (exists t, t ∈ ts /\ covers t px py)) /\
    (forall (i j : nat) t1 t2,
        i <> j -> ts !! i = Some t1 -> ts !! j = Some t2 ->
        tiles_disjoint t1 t2).
Proof. apply (plan_partitions_region 5 3 2 2); lia. Defined.

Example plan_5_3 :
  plan 5 3 2 2 =
  Some [mkTile 0 0 2 2; mkTile 2 0 2 2; mkTile 4 0 1 2;
        mkTile 0 2 2 1; mkTile 2 2 2 1; mkTile 4 2 1 1].
Proof. reflexivity. Qed.

Lemma limits_pos (scl : Q) :
  (0 < scl)%Q ->
  limits scl =
  ((32767 * Zpos (Qden scl)) / Qnum scl,
   (472907776 * (Zpos (Qden scl) * Zpos (Qden scl))) / (Qnum scl * Qnum scl)).
Proof.
  destruct scl as [n d]. unfold Qlt. simpl. intros Hn.
  destruct n as [|n|n]; try lia.
  unfold limits, JS.trunc. simpl.
  rewrite !Pos.mul_1_l, !Pos2Z.inj_mul.
  rewrite !Z.quot_div_nonneg by lia. reflexivity.
Qed.

Lemma tiles_row_diverges (fuel : nat) (rw mw y h x : Z) :
  mw <= 0 -> x < rw -> tiles_row fuel rw mw y h x = None.
Proof.
  intros Hmw. revert x. induction fuel as [|fuel IH]; intros x Hx; simpl;
    destruct (Z.ltb_spec x rw); try lia; [reflexivity|].
  rewrite IH by lia. reflexivity.
Qed.

Lemma tiles_row_bounds (fuel : nat) (rw mw y h x : Z) (ts : list Tile) :
  tiles_row fuel rw mw y h x = Some ts ->
  Forall (fun t => 0 < tile_w t <= mw /\ tile_h t = h) ts.
Proof.
  revert x ts. induction fuel as [|fuel IH]; intros x ts; simpl;
    destruct (Z.ltb_spec x rw) as [Hlt|Hge]; intros Heq; simplify_eq; try constructor.
  destruct (tiles_row fuel rw mw y h (x + mw)) as [rest|] eqn:Hrest; simplify_eq.
  constructor; [|by eapply IH].
  simpl. destruct (Z.le_gt_cases mw 0) as [Hneg|Hpos].
  - rewrite tiles_row_diverges in Hrest by lia. discriminate.
  - destruct (Z.leb_spec (x + mw) rw); lia.
Qed.

Lemma tiles_rows_diverges (fuel : nat) (rw rh mw mh y : Z) :
  mh <= 0 -> y < rh -> tiles_rows fuel rw rh mw mh y = None.
Proof.
  intros Hmh. revert y. induction fuel as [|fuel IH]; intros y Hy; simpl;
    destruct (Z.ltb_spec y rh); try lia; [reflexivity|].
  rewrite IH by lia. by destruct (tiles_row _ _ _ _ _ _).
Qed.

Lemma tiles_rows_bounds (fuel : nat) (rw rh mw mh y : Z) (ts : list Tile) :
  tiles_rows fuel rw rh mw mh y = Some ts ->
  Forall (fun t => 0 < tile_w t <= mw /\ 0 < tile_h t <= mh) ts.
Proof.
  revert y ts. induction fuel as [|fuel IH]; intros y ts; simpl;
    destruct (Z.ltb_spec y rh) as [Hlt|Hge]; intros Heq; simplify_eq; try constructor.
  destruct (tiles_row _ rw mw y _ 0) as [row|] eqn:Hrow; simplify_eq.
  destruct (tiles_rows fuel rw rh mw mh (y + mh)) as [rest|] eqn:Hrest; simplify_eq.
  apply Forall_app. split; [|by eapply IH].
  apply tiles_row_bounds in Hrow.
  eapply Forall_impl; [exact Hrow|]. simpl. intros t [Hw ->]. split; [exact Hw|].
  destruct (Z.le_gt_cases mh 0) as [Hneg|Hpos].
  - rewrite tiles_rows_diverges in Hrest by lia. discriminate.
  - destruct (Z.leb_spec (y + mh) rh); lia.
Qed.

Lemma tile_max_bounds (use_native : bool) (rw rh vw vh : Z) (scl : Q) :
  fst (tile_max use_native rw rh vw vh scl) <= 4095 /\
  snd (tile_max use_native rw rh vw vh scl) <= 16383 /\
  snd (tile_max use_native rw rh vw vh scl) <= fst (limits scl).
Proof. unfold tile_max. destruct use_native; simpl; lia. Qed.

Lemma area_within_limit (scl : Q) (w h : Z) :
  (0 < scl)%Q -> (scl <= 7 # 2)%Q ->
  0 < w <= 4095 -> 0 < h <= fst (limits scl) ->
  w * h <= snd (limits scl).
Proof.
  intros Hpos Hle Hw Hh. rewrite limits_pos in * by done.
  destruct scl as [n d]. unfold Qlt, Qle in *. cbn [fst snd Qnum Qden] in *.
  set (D := Z.pos d) in *. assert (0 < D) by (subst D; lia).
  assert (Hn : 0 < n) by lia.
  pose proof (Z.mul_div_le (32767 * D) n Hn) as Hl0.
  apply Z.div_le_lower_bound; [nia|].
  set (l0 := (32767 * D) / n) in *.
  assert (w * h <= 4095 * l0) by nia.
  assert (n * l0 * n <= 32767 * D * n) by nia.
  nia.
Qed.

(** ** Bounds on the tiles of a request *)

(** C2 (as amended).  For a request with a positive scale, every tile the
    planner emits is at most [mw] wide and [mh] high and covers at most
    4095 x 16383 pixels; its area is within the area limit
    [trunc(472907776 / scl^2)] whenever the scale is at most 3.5. *)
Theorem tile_bounds (env : Env) (req : Request) (ts : list Tile) (t : Tile) :
  (0 < scl env req)%Q ->
  request_tiles env req = Some ts -> t ∈ ts ->
  tile_w t <= fst (request_max env req) /\
  tile_h t <= snd (request_max env req) /\
  tile_w t * tile_h t <= 4095 * 16383 /\
  ((scl env req <= 7 # 2)%Q ->
   tile_w t * tile_h t <= snd (limits (scl env req))).
Proof.
  intros Hscl Hts Ht. unfold request_tiles, plan in Hts.
  apply tiles_rows_bounds in Hts. rewrite Forall_forall in Hts.
  destruct (Hts t Ht) as [Hw Hh].
  destruct (tile_max_bounds (use_native env req) (width req) (height req)
              (vw req) (vh req) (scl env req)) as (Hmw & Hmh & Hl0).
  fold (request_max env req) in Hmw, Hmh, Hl0.
  split; [lia|]. split; [lia|]. split; [nia|].
  intros Hle. apply area_within_limit; [done | done | lia | lia].
Qed.

(** The theorem at a 6000 x 100 region captured at scale 2, on its second
    tile. *)
Lemma tile_bounds_witness :
  tile_w (mkTile 4095 0 1905 100) <= fst (request_max sample_env (sample_request 6000 100 2)) /\
  tile_h (mkTile 4095 0 1905 100) <= snd (request_max sample_env (sample_request 6000 100 2)) /\
  tile_w (mkTile 4095 0 1905 100) * tile_h (mkTile 4095 0 1905 100) <= 4095 * 16383 /\
  ((scl sample_env (sample_request 6000 100 2) <= 7 # 2)%Q ->
   tile_w (mkTile 4095 0 1905 100) * tile_h (mkTile 4095 0 1905 100)
   <= snd (limits (scl sample_env (sample_request 6000 100 2)))).
Proof.
  apply (tile_bounds sample_env (sample_request 6000 100 2)
           [mkTile 0 0 4095 100; mkTile 4095 0 1905 100]).
  - reflexivity.
  - vm_compute. reflexivity.
  - right. left.
Defined.

(** C2, the claim as stated fails.  At scale 4 the area limit is 29556736
    pixels, and the 4095 x 8191 region is captured as one tile of 33542145
    pixels. *)
Lemma tile_area_exceeds_limit :
  request_tiles sample_env (sample_request 4095 8191 4)
  = Some [mkTile 0 0 4095 8191] /\
  snd (limits (scl sample_env (sample_request 4095 8191 4))) = 29556736 /\
  ~ (tile_w (mkTile 0 0 4095 8191) * tile_h (mkTile 0 0 4095 8191)
     <= snd (limits (scl sample_env (sample_request 4095 8191 4)))).
Proof.
  split; [vm_compute; reflexivity|].
  assert (H : snd (limits (scl sample_env (sample_request 4095 8191 4))) = 29556736)
    by (vm_compute; reflexivity).
  split; [exact H|]. rewrite H. simpl. lia.
Qed.

(** ** The 5000 x 20000 request *)

(** C4 (as amended).  For a region of 5000 x 20000 at scale 1, captured
    natively or through a viewport of positive size, the planner loop ends
    with tiles that cover the whole region, none wider than 4095 or taller
    than 16383, and the drawable surface of 5000 x 20000 is the composite:
    [one_canvas] holds, since 20000 <= 32767 and 5000 * 20000 <= 472907776. *)
Theorem region_5000_20000 (env : Env) (req : Request) :
  width req = 5000 -> height req = 20000 -> scale req = 1%Q ->
  use_native env req = true \/ (0 < vw req /\ 0 < vh req) ->
  request_one_canvas env req = true /\
  (forall s, allocate env req s =
             Next (set_content (Surface 5000 20000)
                     (emit (ECreateCanvas 5000 20000) s))) /\
  exists ts,
    request_tiles env req = Some ts /\
    (forall t, t ∈ ts -> tile_w t <= 4095 /\ tile_h t <= 16383) /\
    (forall px py, 0 <= px < 5000 -> 0 <= py < 20000 ->
                   exists t, t ∈ ts /\ covers t px py).
Proof.
  intros Hw Hh Hk Hmode.
  assert (Hscl : scl env req = 1%Q).
  { unfold scl. rewrite Hk. by destruct (_ >=? _). }
  assert (Hone : request_one_canvas env req = true).
  { unfold request_one_canvas. rewrite Hw, Hh, Hscl. reflexivity. }
  split; [exact Hone|]. split.
  { intros s. unfold allocate, totalWidth, totalHeight.
    rewrite Hone, Hw, Hh, Hscl. reflexivity. }
  pose proof (tile_max_bounds (use_native env req) (width req) (height req)
                (vw req) (vh req) (scl env req)) as (Hmw & Hmh & _).
  fold (request_max env req) in Hmw, Hmh.
  assert (Hpos : 0 < fst (request_max env req) /\ 0 < snd (request_max env req)).
  { unfold request_max, tile_max. rewrite Hw, Hh, Hscl.
    change (fst (limits 1)) with 32767.
    destruct Hmode as [-> | [Hvw Hvh]]; [simpl; lia|].
    destruct (use_native env req); simpl; lia. }
  destruct Hpos as [Hmw0 Hmh0].
  destruct (plan_grid (width req) (height req) _ _
              ltac:(lia) ltac:(lia) Hmw0 Hmh0) as (ts & Hts & Hall & Hcov & _).
  exists ts. split; [exact Hts|]. split.
  - intros t Ht. rewrite Forall_forall in Hall. specialize (Hall t Ht). lia.
  - rewrite Hw, Hh in Hcov. exact Hcov.
Qed.

(** The theorem at the sample platform. *)
Lemma region_5000_20000_witness :
  request_one_canvas sample_env (sample_request 5000 20000 1) = true /\
  (forall s, allocate sample_env (sample_request 5000 20000 1) s =
             Next (set_content (Surface 5000 20000)
                     (emit (ECreateCanvas 5000 20000) s))) /\
  exists ts,
    request_tiles sample_env (sample_request 5000 20000 1) = Some ts /\
    (forall t, t ∈ ts -> tile_w t <= 4095 /\ tile_h t <= 16383) /\
    (forall px py, 0 <= px < 5000 -> 0 <= py < 20000 ->
                   exists t, t ∈ ts /\ covers t px py).
Proof.
  apply (region_5000_20000 sample_env (sample_request 5000 20000 1));
    [reflexivity | reflexivity | reflexivity | left; reflexivity].
Defined.

(** C4, the claim as stated fails.  The request takes the drawable surface,
    not the raw pixel buffer; its four tiles are the ones expected. *)
Lemma region_5000_20000_not_raw :
  request_tiles sample_env (sample_request 5000 20000 1)
  = Some [mkTile 0 0 4095 16383; mkTile 4095 0 905 16383;
          mkTile 0 16383 4095 3617; mkTile 4095 16383 905 3617] /\
  exists s,
    TakeScreenshot sample_env (sample_request 5000 20000 1) sample_clock ∅ = Some s /\
    content s = Some (Surface 5000 20000) /\
    allocations (log s) = [ECreateCanvas 5000 20000].
Proof.
  split; [vm_compute; reflexivity|].
  eexists. split; [reflexivity|]. split; vm_compute; reflexivity.
Qed.

End PlannerFacts.

(** ** The capture lock *)

Module MutexFacts.

Lemma holds_unique (tbl : gmap string Mutex.Lock) (key : string) (now a b : Z) :
  Mutex.holds tbl key now a -> Mutex.holds tbl key now b -> a = b.
Proof. intros (l & Hl & <- & _) (l' & Hl' & <- & _). congruence. Qed.

(** C9.  Modelled from the spec.  On a key that is free at [t1], a first
    non-blocking [lock] answers [true]; a second one at a time [t2] within
    the lease answers [false] and leaves the table as it is; one at a time
    [t3] at or after the expiry answers [true] although nobody called
    [unlock].  At every instant a key has at most one holder: within the
    lease it is the first caller and nobody else, and after the takeover it
    is the new caller and nobody else. *)
Theorem lock_lease (m1 m2 m3 : Mutex.t) (key : string) (lease1 lease2 lease3 : option Z)
    (tbl : gmap string Mutex.Lock) (t1 t2 t3 : Z) :
  Mutex.held tbl key t1 = false ->
  t1 <= t2 < t1 + default (Mutex.lock_time m1) lease1 ->
  t1 + default (Mutex.lock_time m1) lease1 <= t3 ->
  (Mutex.lock m1 key false lease1 t1 tbl).1.1 = true /\
  (Mutex.lock m2 key false lease2 t2 (Mutex.lock m1 key false lease1 t1 tbl).2).1.1 = false /\
  (Mutex.lock m2 key false lease2 t2 (Mutex.lock m1 key false lease1 t1 tbl).2).2
  = (Mutex.lock m1 key false lease1 t1 tbl).2 /\
  (Mutex.lock m3 key false lease3 t3 (Mutex.lock m1 key false lease1 t1 tbl).2).1.1 = true /\
  (forall who, Mutex.holds (Mutex.lock m1 key false lease1 t1 tbl).2 key t2 who <->
               who = Mutex.token m1) /\
  (forall who now,
      Mutex.holds (Mutex.lock m3 key false lease3 t3
                     (Mutex.lock m1 key false lease1 t1 tbl).2).2 key now who ->
      who = Mutex.token m3) /\
  (forall (tbl' : gmap string Mutex.Lock) now a b,
      Mutex.holds tbl' key now a -> Mutex.holds tbl' key now b -> a = b).
Proof.
  intros Hfree Ht2 Ht3.
  set (dur := default (Mutex.lock_time m1) lease1) in *.
  assert (H1 : Mutex.lock m1 key false lease1 t1 tbl
               = (true, t1, <[key := Mutex.mkLock (Mutex.token m1) (t1 + dur)]> tbl)).
  { unfold Mutex.held in Hfree. unfold Mutex.lock. fold dur.
    destruct (tbl !! key) as [l|]; [rewrite Hfree|]; reflexivity. }
  rewrite H1. cbn [fst snd].
  assert (H2 : Mutex.lock m2 key false lease2 t2
                 (<[key := Mutex.mkLock (Mutex.token m1) (t1 + dur)]> tbl)
               = (false, t2, <[key := Mutex.mkLock (Mutex.token m1) (t1 + dur)]> tbl)).
  { unfold Mutex.lock. rewrite lookup_insert_eq. cbn [Mutex.expiry].
    destruct (Z.ltb_spec t2 (t1 + dur)); [reflexivity | lia]. }
  assert (H3 : Mutex.lock m3 key false lease3 t3
                 (<[key := Mutex.mkLock (Mutex.token m1) (t1 + dur)]> tbl)
               = (true, t3,
                  <[key := Mutex.mkLock (Mutex.token m3)
                             (t3 + default (Mutex.lock_time m3) lease3)]>
                    (<[key := Mutex.mkLock (Mutex.token m1) (t1 + dur)]> tbl))).
  { unfold Mutex.lock. rewrite lookup_insert_eq. cbn [Mutex.expiry].
    destruct (Z.ltb_spec t3 (t1 + dur)); [lia | reflexivity]. }
  rewrite H2, H3. cbn [fst snd].
  repeat split; try reflexivity.
  - intros (l & Hl & <- & _). rewrite lookup_insert_eq in Hl. by injection Hl as <-.
  - intros ->. eexists. rewrite lookup_insert_eq. split; [reflexivity|].
    cbn. split; [reflexivity | lia].
  - intros who now (l & Hl & <- & _). rewrite lookup_insert_eq in Hl.
    by injection Hl as <-.
  - intros tbl' now a b. apply holds_unique.
Qed.

(** The theorem for three requests on tab 17: the first locks at time 1000
    for five minutes, the second tries at 2000, the third at 301000. *)
Lemma lock_lease_witness :
  (Mutex.lock (Mutex.mk 1 300000) "browserAction-17" false None 1000 ∅).1.1 = true /\
  (Mutex.lock (Mutex.mk 2 300000) "browserAction-17" false None 2000
     (Mutex.lock (Mutex.mk 1 300000) "browserAction-17" false None 1000 ∅).2).1.1 = false /\
  (Mutex.lock (Mutex.mk 2 300000) "browserAction-17" false None 2000
     (Mutex.lock (Mutex.mk 1 300000) "browserAction-17" false None 1000 ∅).2).2
  = (Mutex.lock (Mutex.mk 1 300000) "browserAction-17" false None 1000 ∅).2 /\
  (Mutex.lock (Mutex.mk 3 300000) "browserAction-17" false None 301000
     (Mutex.lock (Mutex.mk 1 300000) "browserAction-17" false None 1000 ∅).2).1.1 = true /\
  (forall who,
      Mutex.holds (Mutex.lock (Mutex.mk 1 300000) "browserAction-17" false None 1000 ∅).2
        "browserAction-17" 2000 who <->
      who = Mutex.token (Mutex.mk 1 300000)) /\
  (forall who now,
      Mutex.holds
        (Mutex.lock (Mutex.mk 3 300000) "browserAction-17" false None 301000
           (Mutex.lock (Mutex.mk 1 300000) "browserAction-17" false None 1000 ∅).2).2
        "browserAction-17" now who ->
      who = Mutex.token (Mutex.mk 3 300000)) /\
  (forall (tbl' : gmap string Mutex.Lock) now a b,
      Mutex.holds tbl' "browserAction-17" now a ->
      Mutex.holds tbl' "browserAction-17" now b -> a = b).
Proof.
  apply (lock_lease (Mutex.mk 1 300000) (Mutex.mk 2 300000) (Mutex.mk 3 300000)
           "browserAction-17" None None None ∅ 1000 2000 301000).
  - reflexivity.
  - simpl. lia.
  - simpl. lia.
Defined.

End MutexFacts.

(** ** The scroll compensator *)

Module CompensatorFacts.






Example restore_once_log :
  log (restoreScrollPosition (sample_request 800 600 1)
         (mkSt ∅ 0 RestoreCss [css_reset; css_shift 0 720] false None []))
  = [ERemoveCSS css_reset; ERemoveCSS (css_shift 0 720);
     EExecuteScript (scrollTo 0 0)].
Proof. reflexivity. Qed.

(** C6.  Both strategies address the tile at the target coordinates
    [target dir.x x pw w] and [target dir.y y ph h]: these are the
    coordinates tested against the viewport on the first tile, the ones the
    offset of a visible first tile is taken from, and the ones the
    transform-based strategy shifts the page by. *)
Theorem scroll_target_coordinates (req : Request) (x y w h : Z) (s : St) :
  updateScrollPosition_css req x y w h s =
  (if is_first s &&
      (in_view (dir_x req) (target (dir_x req) x (pw req) w) w (sx req) (vw req) &&
       in_view (dir_y req) (target (dir_y req) y (ph req) h) h (sy req) (vh req))
   then (mkPos (view_offset (dir_x req) (target (dir_x req) x (pw req) w) w (sx req) (vw req))
               (view_offset (dir_y req) (target (dir_y req) y (ph req) h) h (sy req) (vh req)),
         set_is_first false s)
   else (mkPos (if dir_x req >? 0 then 0 else vw req - w)
               (if dir_y req >? 0 then 0 else vh req - h),
         applyCssScroll (target (dir_x req) x (pw req) w)
                        (target (dir_y req) y (ph req) h)
           (if is_first s then resetScrollPosition (set_is_first false s) else s)))
  /\
  updateScrollPosition_js req x y w h s =
  (if is_first s &&
      (in_view (dir_x req) (target (dir_x req) x (pw req) w) w (sx req) (vw req) &&
       in_view (dir_y req) (target (dir_y req) y (ph req) h) h (sy req) (vh req))
   then (mkPos (view_offset (dir_x req) (target (dir_x req) x (pw req) w) w (sx req) (vw req))
               (view_offset (dir_y req) (target (dir_y req) y (ph req) h) h (sy req) (vh req)),
         set_is_first false s)
   else (mkPos (if x <=? pw req - vw req then 0 else vw req - w)
               (if y <=? ph req - vh req then 0 else vh req - h),
         resetScrollPosition
           (if is_first s then set_is_first false s else s))).
Proof.
  unfold updateScrollPosition_css, updateScrollPosition_js, in_view, view_offset, target.
  split; destruct (is_first s); cbn [andb];
    repeat match goal with
           | |- context [if ?b && ?c then _ else _] => destruct (b && c)
           end; reflexivity.
Qed.

End CompensatorFacts.

(** ** The orchestrator *)

Module OrchestratorFacts.
Import Planner.


Lemma log_emits es s : log (emits es s) = log s ++ es. Proof. reflexivity. Qed.
Lemma log_emit e s : log (emit e s) = log s ++ [e]. Proof. reflexivity. Qed.
Lemma log_set_locks t s : log (set_locks t s) = log s. Proof. reflexivity. Qed.
Lemma log_set_now t s : log (set_now t s) = log s. Proof. reflexivity. Qed.
Lemma log_wait_until t s : log (wait_until t s) = log s. Proof. reflexivity. Qed.
Lemma log_set_restore r s : log (set_restore r s) = log s. Proof. reflexivity. Qed.
Lemma log_set_tasks l s : log (set_tasks l s) = log s. Proof. reflexivity. Qed.
Lemma log_set_is_first b s : log (set_is_first b s) = log s. Proof. reflexivity. Qed.
Lemma log_set_content c s : log (set_content c s) = log s. Proof. reflexivity. Qed.
Lemma content_emits es s : content (emits es s) = content s. Proof. reflexivity. Qed.
Lemma content_emit e s : content (emit e s) = content s. Proof. reflexivity. Qed.
Lemma content_set_locks t s : content (set_locks t s) = content s. Proof. reflexivity. Qed.
Lemma content_set_now t s : content (set_now t s) = content s. Proof. reflexivity. Qed.
Lemma content_wait_until t s : content (wait_until t s) = content s. Proof. reflexivity. Qed.
Lemma content_set_restore r s : content (set_restore r s) = content s. Proof. reflexivity. Qed.
Lemma content_set_tasks l s : content (set_tasks l s) = content s. Proof. reflexivity. Qed.
Lemma content_set_is_first b s : content (set_is_first b s) = content s. Proof. reflexivity. Qed.
Lemma content_set_content c s : content (set_content c s) = Some c. Proof. reflexivity. Qed.

Create Rewrite HintDb st.
#[local] Hint Rewrite log_emits log_emit log_set_locks log_set_now log_wait_until
  log_set_restore log_set_tasks log_set_is_first log_set_content
  content_emits content_emit content_set_locks content_set_now content_wait_until
  content_set_restore content_set_tasks content_set_is_first content_set_content : st.


Ltac split_ifs :=
  repeat match goal with
         | |- context [if ?b then _ else _] => destruct b
         end.












Lemma key_not_worker env : "worker" <> key env.
Proof. unfold key. discriminate. Qed.

Lemma lock_tab_held env s :
  Mutex.held (locks s) (key env) (now s) = true ->
  lock_tab env s = (false, set_locks (locks s) (set_now (now s) s)).
Proof.
  unfold Mutex.held, lock_tab, Mutex.lock.
  destruct (locks s !! key env) as [l|]; [|discriminate].
  intros ->. reflexivity.
Qed.

Lemma harmless_cleanup :
  Forall harmless [ESetTitle title_empty; ESetBadgeText text_empty;
                   ESetBadgeBackgroundColor color_null; EEnable].
Proof. repeat constructor. Qed.

Lemma finally_harmless env clk s :
  exists es, log (finally_block env clk s) = log s ++ es /\
             Forall harmless es /\
             content (finally_block env clk s) = content s /\
             restore (finally_block env clk s) = restore s.
Proof.
  unfold finally_block, lock_tab.
  destruct (Mutex.lock _ _ _ _ _ _) as [[got t] tbl].
  destruct got; [destruct (badge env)|].
  - exists [ESetTitle title_empty; ESetBadgeText text_empty;
            ESetBadgeBackgroundColor color_null; EEnable].
    split; [|split; [apply harmless_cleanup | split; reflexivity]].
    autorewrite with st. by rewrite <- app_assoc.
  - exists [EEnable]. repeat split; repeat constructor.
  - exists []. repeat split; try constructor.
    autorewrite with st. by rewrite app_nil_r.
Qed.

Lemma finally_held env clk s :
  Mutex.held (locks s) (key env) (Z.max (now s) (t_finally clk)) = true ->
  log (finally_block env clk s) = log s /\
  locks (finally_block env clk s) !! key env = locks s !! key env.
Proof.
  intros Hheld. unfold finally_block.
  rewrite lock_tab_held by exact Hheld.
  split; [reflexivity|].
  cbn. unfold Mutex.unlock. apply lookup_delete_ne, key_not_worker.
Qed.

(** C7.  Modelled from the spec as far as the lock is concerned.  A
    request that arrives while the capture lock of its tab is held gets
    [false] from its non-blocking lock call and ends without waiting: it
    issues no capture, does not touch the page, creates no composite buffer
    and delivers nothing.  While the lock is still held when the [finally]
    block runs, nothing at all is logged and the lock entry stays with its
    holder. *)
Theorem overlapping_request_dropped env req clk tbl :
  Mutex.held tbl (key env) (t_lock clk) = true ->
  fst (lock_tab env (init tbl (t_lock clk))) = false /\
  exists s,
    TakeScreenshot env req clk tbl = Some s /\
    content s = None /\
    restore s = RestoreNothing /\
    Forall harmless (log s) /\
    (Mutex.held tbl (key env) (t_finally clk) = true ->
     log s = [] /\ locks s !! key env = tbl !! key env).
Proof.
  intros Hheld.
  assert (Hlock : lock_tab env (init tbl (t_lock clk)) = (false, init tbl (t_lock clk))).
  { by rewrite lock_tab_held. }
  split; [by rewrite Hlock|].
  unfold TakeScreenshot, try_block. rewrite Hlock. cbn [negb].
  eexists. split; [reflexivity|].
  destruct (finally_harmless env clk (init tbl (t_lock clk)))
    as (es & Hlog & Hes & Hc & Hr).
  rewrite Hc, Hr. cbn [log init app] in Hlog.
  repeat split; [by rewrite Hlog|..];
    apply (finally_held env clk (init tbl (t_lock clk)));
    cbn [locks now init];
    destruct (Z.max_spec (t_lock clk) (t_finally clk)) as [[_ ->]|[_ ->]]; assumption.
Qed.

(** The theorem at tab 17, whose lock another request holds. *)
Lemma overlapping_request_dropped_witness :
  fst (lock_tab sample_env (init sample_locked (t_lock sample_clock))) = false /\
  exists s,
    TakeScreenshot sample_env (sample_request 800 600 1) sample_clock sample_locked
    = Some s /\
    content s = None /\
    restore s = RestoreNothing /\
    Forall harmless (log s) /\
    (Mutex.held sample_locked (key sample_env) (t_finally sample_clock) = true ->
     log s = [] /\ locks s !! key sample_env = sample_locked !! key sample_env).
Proof.
  apply (overlapping_request_dropped sample_env (sample_request 800 600 1)
           sample_clock sample_locked).
  vm_compute. reflexivity.
Defined.





(** The lock call logs nothing and leaves the composite buffer alone,
    whatever it answers. *)
Lemma lock_tab_quiet env s :
  log (lock_tab env s).2 = log s /\ content (lock_tab env s).2 = content s.
Proof.
  unfold lock_tab. destruct (Mutex.lock _ _ _ _ _ _) as [[got t] tbl].
  split; reflexivity.
Qed.





(** C8.  A request with a positive scale that obtains the capture lock,
    does not get the drawable surface, and whose raw buffer would need at least
    [Number.MAX_SAFE_INTEGER] bytes or cannot be allocated, ends at once:
    after disabling the toolbar button it raises the alarm
    [errorImageTooLarge], and what follows is the clean-up of the [finally]
    block.  No capture is issued, nothing is downloaded or copied, and no
    composite buffer exists. *)
Theorem image_too_large_aborts env req clk tbl :
  (lock_tab env (init tbl (t_lock clk))).1 = true ->
  (0 < scl env req)%Q ->
  request_one_canvas env req = false ->
  (JS.MAX_SAFE_INTEGER <= buffer_size env req \/
   uint8array_ok env (buffer_size env req) = false) ->
  exists s es,
    TakeScreenshot env req clk tbl = Some s /\
    log s = EDisable :: EAlarm errorImageTooLarge :: es /\
    Forall harmless es /\
    count_captures (log s) = 0%nat /\
    List.filter is_delivery (log s) = [] /\
    content s = None.
Proof.
  intros Hgot _ Hone Hbig.
  pose proof (lock_tab_quiet env (init tbl (t_lock clk))) as [Hl0 Hc0].
  unfold TakeScreenshot, try_block, allocate.
  destruct (lock_tab env (init tbl (t_lock clk))) as [got s0].
  cbn [fst snd log content init] in Hgot, Hl0, Hc0. subst got.
  rewrite Hone. cbn [negb].
  assert (Hsize : (buffer_size env req <? JS.MAX_SAFE_INTEGER) &&
                  uint8array_ok env (buffer_size env req) = false).
  { destruct Hbig as [Hbig| ->]; [|apply andb_false_r].
    apply Z.ltb_ge in Hbig. by rewrite Hbig. }
  rewrite Hsize.
  destruct (finally_harmless env clk (emit (EAlarm errorImageTooLarge) (emit EDisable s0)))
    as (es & Hl & Hes & Hc & _).
  autorewrite with st in Hl, Hc. rewrite Hl0 in Hl. cbn [app] in Hl.
  eexists _, es. split; [reflexivity|]. split; [exact Hl|]. split; [exact Hes|].
  rewrite Hl, Hc, Hc0. unfold count_captures. cbn.
  assert (Hq : List.filter is_capture es = [] /\ List.filter is_delivery es = []).
  { clear Hl. induction es as [|e es IH]; [done|].
    inversion Hes as [|? ? (He1 & _ & _ & He4) Hes']; subst.
    cbn. rewrite He1, He4. by apply IH. }
  destruct Hq as [-> ->]. done.
Qed.

(** The theorem at a region of 10^8 x 10^8 pixels. *)
Lemma image_too_large_aborts_witness :
  exists s es,
    TakeScreenshot sample_env (sample_request 100000000 100000000 1) sample_clock ∅
    = Some s /\
    log s = EDisable :: EAlarm errorImageTooLarge :: es /\
    Forall harmless es /\
    count_captures (log s) = 0%nat /\
    List.filter is_delivery (log s) = [] /\
    content s = None.
Proof.
  apply (image_too_large_aborts sample_env
           (sample_request 100000000 100000000 1) sample_clock ∅).
  - vm_compute. reflexivity.
  - reflexivity.
  - vm_compute. reflexivity.
  - left. vm_compute. discriminate.
Defined.

End OrchestratorFacts.

Module CompositeFacts.
Import Composite.

Lemma length_pixel_bytes (cv : Canvas) (x y : Z) : length (pixel_bytes cv x y) = 4%nat.
Proof.
  unfold pixel_bytes. destruct (_ && _); [|reflexivity].
  by destruct (cv_pixel cv x y) as [[[r g] b] a].
Qed.

Lemma length_image_row (cv : Canvas) (sx sw y : Z) :
  length (image_row cv sx sw y) = (4 * Z.to_nat sw)%nat.
Proof.
  unfold image_row. rewrite <- (length_seqZ 0 sw).
  induction (seqZ 0 sw) as [|c l IH]; [reflexivity|].
  simpl. rewrite length_app, length_pixel_bytes, IH. lia.
Qed.

Lemma getImageData_rows (cv : Canvas) (sx sy sw sh : Z) :
  getImageData cv sx sy sw sh = flat_map (image_row cv sx sw) (seqZ sy sh).
Proof.
  unfold getImageData.
  transitivity (flat_map (image_row cv sx sw) (Z.add sy <$> seqZ 0 sh));
    [|by rewrite fmap_add_seqZ, Z.add_0_r].
  induction (seqZ 0 sh) as [|r l IH]; [reflexivity|].
  simpl. by rewrite IH.
Qed.

Lemma getImageData_row (cv : Canvas) (sx sw i : Z) :
  getImageData cv sx i sw 1 = image_row cv sx sw i.
Proof.
  rewrite getImageData_rows, seqZ_cons, seqZ_nil by lia.
  simpl. apply app_nil_r.
Qed.

Lemma set_fits (content data : list byte) (off : Z) :
  0 <= off -> off + Z.of_nat (length data) <= Z.of_nat (length content) ->
  set content data off =
  Some (take (Z.to_nat off) content ++ data ++
        drop (Z.to_nat off + length data) content).
Proof.
  intros H1 H2. unfold set.
  destruct (Z.leb_spec 0 off); [|lia].
  destruct (Z.leb_spec (off + Z.of_nat (length data)) (Z.of_nat (length content)));
    [reflexivity | lia].
Qed.

Lemma set_range_error (content data : list byte) (off : Z) :
  off < 0 \/ Z.of_nat (length content) < off + Z.of_nat (length data) ->
  set content data off = None.
Proof.
  intros H. unfold set.
  destruct (Z.leb_spec 0 off); [|reflexivity].
  destruct (Z.leb_spec (off + Z.of_nat (length data)) (Z.of_nat (length content)));
    [lia | reflexivity].
Qed.

(** Writing two blocks one after the other is writing their concatenation. *)
Lemma set_app (content d1 d2 : list byte) (off : Z) :
  set content (d1 ++ d2) off =
  match set content d1 off with
  | Some content' => set content' d2 (off + Z.of_nat (length d1))
  | None => None
  end.
Proof.
  destruct (Z.lt_ge_cases off 0) as [Hneg|Hoff].
  { rewrite !set_range_error by auto. reflexivity. }
  destruct (Z.lt_ge_cases (Z.of_nat (length content)) (off + Z.of_nat (length d1)))
    as [H1|H1].
  { rewrite !set_range_error; [reflexivity | auto |].
    right. rewrite length_app. lia. }
  rewrite (set_fits content d1) by lia.
  set (c1 := take (Z.to_nat off) content ++ d1 ++ drop (Z.to_nat off + length d1) content).
  assert (Hlen : length c1 = length content).
  { subst c1. rewrite !length_app, length_take, length_drop. lia. }
  destruct (Z.lt_ge_cases (Z.of_nat (length content))
              (off + Z.of_nat (length (d1 ++ d2)))) as [H2|H2].
  { rewrite length_app in H2.
    rewrite (set_range_error content (d1 ++ d2))
      by (right; rewrite length_app; lia).
    rewrite (set_range_error c1 d2) by (right; rewrite Hlen; lia).
    reflexivity. }
  rewrite length_app in H2.
  rewrite (set_fits content (d1 ++ d2)) by (rewrite ?length_app; lia).
  rewrite (set_fits c1 d2) by (rewrite ?Hlen; lia).
  f_equal. rewrite length_app.
  assert (Htake : length (take (Z.to_nat off) content) = Z.to_nat off)
    by (rewrite length_take; lia).
  replace (Z.to_nat (off + Z.of_nat (length d1)))
    with (length (take (Z.to_nat off) content ++ d1))
    by (rewrite length_app, Htake; lia).
  subst c1. rewrite (app_assoc (take _ content) d1 (drop _ content)).
  rewrite take_app_length. rewrite <- !app_assoc. do 3 f_equal.
  rewrite (app_assoc (take _ content) d1 (drop _ content)).
  rewrite <- (drop_drop _ (length d2) (length (take (Z.to_nat off) content ++ d1))).
  rewrite drop_app_length, drop_drop. f_equal. lia.
Qed.

(** From row [i] on, [S n] rounds of the row loop on a full-width tile
    write what a single call writes with the [S n] rows as one block. *)
Lemma copy_rows_from_block (n : nat) (i : Z) (cv : Canvas) (content : list byte)
    (y rw scl : Z) :
  0 <= rw * scl ->
  copy_rows_from (S n) i cv content 0 y rw rw scl =
  set content (flat_map (image_row cv 0 (rw * scl)) (seqZ i (Z.of_nat (S n))))
      (((y + i) * rw * scl + 0) * 4).
Proof.
  intros Hw. revert i content. induction n as [|n IH]; intros i content.
  - cbn [copy_rows_from]. rewrite getImageData_row.
    rewrite seqZ_cons, seqZ_nil by lia. cbn [flat_map]. rewrite app_nil_r.
    by destruct (set content _ _).
  - cbn [copy_rows_from] in *. rewrite getImageData_row.
    rewrite (seqZ_cons i) by lia. cbn [flat_map]. rewrite set_app.
    destruct (set content (image_row cv 0 (rw * scl) i) _) as [content'|];
      [|reflexivity].
    rewrite IH, length_image_row.
    replace (Z.pred (Z.of_nat (S (S n)))) with (Z.of_nat (S n)) by lia.
    f_equal. lia.
Qed.



Example copy_tile_2_2 :
  copy_tile (fun x y => (Byte.x01, Byte.x02, Byte.x03, Byte.xff))
    (repeat Byte.x00 32) 0 1 2 2 2 1
  = Some (repeat Byte.x00 8 ++
          [Byte.x01; Byte.x02; Byte.x03; Byte.xff; Byte.x01; Byte.x02; Byte.x03; Byte.xff;
           Byte.x01; Byte.x02; Byte.x03; Byte.xff; Byte.x01; Byte.x02; Byte.x03; Byte.xff] ++
          repeat Byte.x00 8).
Proof. vm_compute. reflexivity. Qed.

Example copy_tile_out_of_range :
  copy_tile (fun x y => (Byte.x01, Byte.x02, Byte.x03, Byte.xff))
    (repeat Byte.x00 32) 0 3 2 2 2 1 = None.
Proof. vm_compute. reflexivity. Qed.

End CompositeFacts.

(** ** File names *)

Module NameFacts.
Import Str.

Example sanitize_sample :
  SanitizeFileName (lit " -.<<My {page}>>: a/b?   c.txt. ")
  = lit "(My (page) ab c.txt".
Proof. vm_compute. reflexivity. Qed.

Example format_sample :
  ApplyFilenameFormat (mkDate 2026 0 5 9 7 3) (lit "%Y-%m-%d_%H.%M.%S %t %h %u %Y")
    (mkTab (lit "T$&$$") (lit "https://a.b/c?d") (lit "a.b") (lit "/c"))
  = lit "2026-01-05_09.07.03 T%t$ a.b https.--a.b-c-d %Y".
Proof. vm_compute. reflexivity. Qed.

Example after_last_slash_sample :
  after_last_slash (lit "/a/b/c.html") = lit "c.html" /\
  after_last_slash (lit "plain") = lit "plain" /\
  after_last_slash (lit "/a/") = [].
Proof. vm_compute. auto. Qed.

(** *** The string operations *)

Lemma elem_of_replace_runs_from (b : bool) (p : Z -> bool) (r s : list Z) (c : Z) :
  c ∈ replace_runs_from b p r s -> c ∈ r \/ (c ∈ s /\ p c = false).
Proof.
  revert b. induction s as [|d s IH]; intros b; simpl; [by intros ?%elem_of_nil|].
  destruct (p d) eqn:Hd.
  - rewrite elem_of_app. intros [H|H].
    + destruct b; [by apply elem_of_nil in H | by left].
    + destruct (IH _ H) as [?|[? ?]]; [by left | right; split; [by right | done]].
  - rewrite elem_of_cons. intros [->|H].
    + right. split; [by left | done].
    + destruct (IH _ H) as [?|[? ?]]; [by left | right; split; [by right | done]].
Qed.

Lemma elem_of_remove_all (p : Z -> bool) (s : list Z) (c : Z) :
  c ∈ remove_all p s <-> c ∈ s /\ p c = false.
Proof.
  unfold remove_all. rewrite !list_elem_of_In, List.filter_In.
  by rewrite negb_true_iff.
Qed.

Lemma strip_start_suffix (p : Z -> bool) (s : list Z) :
  exists l, s = l ++ strip_start p s /\ Forall (fun c => p c = true) l.
Proof.
  induction s as [|c s (l & Hl & Hall)]; [by exists []|]. simpl.
  destruct (p c) eqn:Hc.
  - exists (c :: l). split; [by rewrite Hl at 1 | by constructor].
  - by exists [].
Qed.

Lemma strip_end_prefix (p : Z -> bool) (s : list Z) :
  exists l, s = strip_end p s ++ l /\ Forall (fun c => p c = true) l.
Proof.
  induction s as [|c s (l & Hl & Hall)]; [by exists []|]. simpl.
  destruct (strip_end p s) as [|d rest] eqn:Hrest.
  - destruct (p c) eqn:Hc.
    + exists (c :: l). simpl in Hl. subst l. split; [done | by constructor].
    + exists l. simpl in *. by subst.
  - exists l. split; [|done]. simpl. by rewrite Hl at 1.
Qed.

Lemma head_strip_start (p : Z -> bool) (s : list Z) (c : Z) :
  head (strip_start p s) = Some c -> p c = false.
Proof.
  induction s as [|d s IH]; simpl; [done|].
  destruct (p d) eqn:Hd; [exact IH|]. by intros [= <-].
Qed.

Lemma last_strip_end (p : Z -> bool) (s : list Z) (c : Z) :
  last (strip_end p s) = Some c -> p c = false.
Proof.
  induction s as [|d s IH]; simpl; [done|].
  destruct (strip_end p s) as [|e rest] eqn:Hrest.
  - destruct (p d) eqn:Hd; [done | by intros [= <-]].
  - rewrite last_cons_cons. exact IH.
Qed.

Lemma head_strip_end (p : Z -> bool) (s : list Z) (c : Z) :
  head s = Some c -> p c = false -> head (strip_end p s) = Some c.
Proof.
  destruct s as [|d s]; simpl; [done|]. intros [= ->] Hc.
  destruct (strip_end p s); [by rewrite Hc | done].
Qed.

Lemma strip_start_id (p : Z -> bool) (s : list Z) :
  (forall c, head s = Some c -> p c = false) -> strip_start p s = s.
Proof. destruct s as [|c s]; simpl; [done|]. intros H. by rewrite H. Qed.

Lemma strip_end_id (p : Z -> bool) (s : list Z) :
  (forall c, last s = Some c -> p c = false) -> strip_end p s = s.
Proof.
  induction s as [|c s IH]; simpl; [done|]. intros H.
  destruct s as [|d s].
  - simpl. by rewrite H.
  - rewrite IH; [done|]. intros e He. apply H. by rewrite last_cons_cons.
Qed.

Lemma replace_runs_from_id (b : bool) (p : Z -> bool) (r s : list Z) :
  Forall (fun c => p c = false) s -> replace_runs_from b p r s = s.
Proof.
  intros H. revert b. induction H as [|c s Hc _ IH]; intros b; simpl; [done|].
  by rewrite Hc, IH.
Qed.

Lemma remove_all_id (p : Z -> bool) (s : list Z) :
  Forall (fun c => p c = false) s -> remove_all p s = s.
Proof.
  unfold remove_all. induction 1 as [|c s Hc _ IH]; simpl; [done|].
  by rewrite Hc, IH.
Qed.

Lemma length_replace_runs_from (b : bool) (p : Z -> bool) (r s : list Z) :
  (length r <= 1)%nat -> (length (replace_runs_from b p r s) <= length s)%nat.
Proof.
  intros Hr. revert b. induction s as [|c s IH]; intros b; simpl; [done|].
  destruct (p c); simpl; [|specialize (IH false); lia].
  rewrite length_app. specialize (IH true). destruct b; simpl; lia.
Qed.

(** Collapsing white space leaves single spaces, and nothing white at the
    front when the text before ended in white space. *)
Lemma replace_runs_from_spaces (b : bool) (s : list Z) :
  single_spaces (replace_runs_from b is_space (lit " ") s) /\
  (b = true ->
   forall d, head (replace_runs_from b is_space (lit " ") s) = Some d ->
             is_space d = false).
Proof.
  revert b. induction s as [|c s IH]; intros b; simpl; [done|].
  destruct (is_space c) eqn:Hc.
  - destruct (IH true) as [Hs Hh]. destruct b; simpl.
    + split; [exact Hs | intros _; by apply Hh].
    + split; [|done]. split; [|exact Hs]. intros _. split; [done|].
      destruct (replace_runs_from true is_space (lit " ") s) eqn:Hr; [done|].
      by apply Hh.
  - destruct (IH false) as [Hs _]. split.
    + split; [by rewrite Hc | exact Hs].
    + intros _ d [= <-]. exact Hc.
Qed.

Lemma replace_runs_spaces_id (s : list Z) :
  single_spaces s ->
  replace_runs_from false is_space (lit " ") s = s /\
  ((forall d, head s = Some d -> is_space d = false) ->
   replace_runs_from true is_space (lit " ") s = s).
Proof.
  induction s as [|c s IH]; simpl; [done|]. intros [Hc Hs].
  destruct (IH Hs) as [IH1 IH2].
  destruct (is_space c) eqn:Hsp.
  - destruct (Hc eq_refl) as [-> Hnext]. split.
    + simpl. f_equal. apply IH2. intros d Hd. destruct s; [done|]. by injection Hd as <-.
    + intros H. by rewrite (H 32 eq_refl) in Hsp.
  - split; [by rewrite IH1 | intros _; by rewrite IH1].
Qed.

Lemma head_replace_runs (p : Z -> bool) (r s : list Z) (c : Z) :
  head s = Some c -> p c = false -> head (replace_runs p r s) = Some c.
Proof.
  destruct s as [|d s]; [done|]. unfold replace_runs. simpl.
  intros [= ->] Hc. by rewrite Hc.
Qed.

Lemma last_replace_runs_from (b : bool) (p : Z -> bool) (r s : list Z) (c : Z) :
  last s = Some c -> p c = false -> last (replace_runs_from b p r s) = Some c.
Proof.
  revert b. induction s as [|d s IH]; intros b; [done|].
  intros Hl Hc. destruct s as [|e s].
  - injection Hl as ->. simpl. by rewrite Hc.
  - rewrite last_cons_cons in Hl.
    change (replace_runs_from b p r (d :: e :: s))
      with (if p d then (if b then [] else r) ++ replace_runs_from true p r (e :: s)
            else d :: replace_runs_from false p r (e :: s)).
    destruct (p d).
    + rewrite last_app, (IH true Hl Hc). done.
    + rewrite last_cons, (IH false Hl Hc). done.
Qed.


(** *** [SanitizeFileName] *)

Lemma leading_trailing (c : Z) : is_leading c = false -> is_trailing c = false.
Proof.
  unfold is_leading, is_trailing, one_of.
  change (lit "-.") with [45; 46]. change (lit ".") with [46]. simpl.
  destruct (is_space c), (c =? 45), (c =? 46); done.
Qed.

Lemma sanitize_clean (s : list Z) : clean_name (SanitizeFileName s).
Proof.
  unfold SanitizeFileName.
  set (s1 := replace_runs is_opening (lit "(") s).
  set (s2 := replace_runs is_closing (lit ")") s1).
  set (s3 := remove_all is_special s2).
  set (s4 := strip_start is_leading s3).
  set (s5 := strip_end is_trailing s4).
  assert (H5 : forall c, c ∈ s5 -> forbidden c = false).
  { intros c Hc.
    destruct (strip_end_prefix is_trailing s4) as (l5 & E5 & _). fold s5 in E5.
    destruct (strip_start_suffix is_leading s3) as (l4 & E4 & _). fold s4 in E4.
    assert (Hc3 : c ∈ s3).
    { rewrite E4. apply elem_of_app. right. rewrite E5. apply elem_of_app. by left. }
    apply elem_of_remove_all in Hc3 as [Hc2 Hsp].
    unfold forbidden. rewrite Hsp, orb_false_r.
    apply elem_of_replace_runs_from in Hc2 as [Hc2|[Hc1 Hcl]].
    { apply list_elem_of_singleton in Hc2 as ->. reflexivity. }
    rewrite Hcl, orb_false_r.
    apply elem_of_replace_runs_from in Hc1 as [Hc1|[_ Hop]]; [|exact Hop].
    apply list_elem_of_singleton in Hc1 as ->. reflexivity. }
  assert (Hhead : forall c, head s5 = Some c -> is_leading c = false).
  { intros c Hc. destruct s4 as [|d s4'] eqn:E4; [done|].
    pose proof (head_strip_start is_leading s3 d) as Hd. fold s4 in Hd.
    rewrite E4 in Hd. specialize (Hd eq_refl).
    assert (Htr : is_trailing d = false) by (by apply leading_trailing).
    pose proof (head_strip_end is_trailing (d :: s4') d eq_refl Htr) as Hh.
    fold s5 in Hh. rewrite Hh in Hc. by injection Hc as <-. }
  assert (Hlast : forall c, last s5 = Some c -> is_trailing c = false).
  { intros c. apply last_strip_end. }
  destruct (replace_runs_from_spaces false s5) as [Hsp _].
  repeat split.
  - apply Forall_forall. intros c Hc.
    apply elem_of_replace_runs_from in Hc as [Hc|[Hc _]]; [|by apply H5].
    apply list_elem_of_singleton in Hc as ->. reflexivity.
  - intros c Hc. destruct s5 as [|d s5'] eqn:E5; [done|].
    assert (Hd : is_leading d = false) by (by apply Hhead).
    assert (Hds : is_space d = false).
    { unfold is_leading in Hd. by apply orb_false_iff in Hd as [-> _]. }
    rewrite (head_replace_runs is_space _ (d :: s5') d eq_refl Hds) in Hc.
    by injection Hc as <-.
  - intros c Hc. destruct (last s5) as [d|] eqn:E5.
    + assert (Hd : is_trailing d = false) by (by apply Hlast).
      assert (Hds : is_space d = false).
      { unfold is_trailing in Hd. by apply orb_false_iff in Hd as [-> _]. }
      unfold replace_runs in Hc.
      rewrite (last_replace_runs_from false is_space _ s5 d E5 Hds) in Hc.
      by injection Hc as <-.
    + apply last_None in E5. rewrite E5 in Hc. done.
  - exact Hsp.
Qed.

Lemma clean_sanitize (s : list Z) : clean_name s -> SanitizeFileName s = s.
Proof.
  intros (Hforb & Hhead & Hlast & Hsp). unfold SanitizeFileName, replace_runs.
  rewrite (replace_runs_from_id false is_opening).
  2:{ eapply Forall_impl; [exact Hforb|]. simpl. unfold forbidden. intros c Hc.
      by destruct (is_opening c). }
  rewrite (replace_runs_from_id false is_closing).
  2:{ eapply Forall_impl; [exact Hforb|]. simpl. unfold forbidden. intros c Hc.
      by destruct (is_opening c), (is_closing c). }
  rewrite remove_all_id.
  2:{ eapply Forall_impl; [exact Hforb|]. simpl. unfold forbidden. intros c Hc.
      by destruct (is_opening c), (is_closing c), (is_special c). }
  rewrite strip_start_id by exact Hhead.
  rewrite strip_end_id by exact Hlast.
  by apply replace_runs_spaces_id.
Qed.

Lemma single_spaces_lookup (s : list Z) (i : nat) (c : Z) :
  single_spaces s -> s !! i = Some c -> is_space c = true ->
  c = 32 /\ forall d, s !! S i = Some d -> is_space d = false.
Proof.
  revert i. induction s as [|e s IH]; intros i; [done|].
  intros [He Hs] Hi Hc. destruct i as [|i].
  - injection Hi as ->. destruct (He Hc) as [-> Hn]. split; [done|].
    intros d Hd. destruct s; [done|]. by injection Hd as <-.
  - by apply (IH i).
Qed.

(** X1.  A sanitized name holds none of the characters
    [< { > } # $ % ! & * ' ? / : \ @ |] nor a double quote. *)
Theorem sanitize_no_forbidden (s : list Z) (c : Z) :
  c ∈ SanitizeFileName s -> forbidden c = false.
Proof.
  destruct (sanitize_clean s) as (H & _). rewrite Forall_forall in H. apply H.
Qed.

(** The theorem on a name with brackets, a slash and a question mark. *)
Lemma sanitize_no_forbidden_witness :
  SanitizeFileName (lit "<a/b>?") = lit "(ab)" /\ forbidden 40 = false.
Proof.
  split; [vm_compute; reflexivity|].
  apply (sanitize_no_forbidden (lit "<a/b>?") 40). vm_compute. left.
Defined.

(** X2.  A sanitized name does not start with white space, a hyphen or a
    dot and does not end with white space or a dot; each white space
    character in it is a single space (U+0020) that stands between two
    characters that are not white space. *)
Theorem sanitize_trimmed (s : list Z) :
  (forall c, head (SanitizeFileName s) = Some c -> is_leading c = false) /\
  (forall c, last (SanitizeFileName s) = Some c -> is_trailing c = false) /\
  (forall (i : nat) c,
      SanitizeFileName s !! i = Some c -> is_space c = true ->
      c = 32 /\
      (exists (j : nat) a, i = S j /\ SanitizeFileName s !! j = Some a /\
                           is_space a = false) /\
      (exists d, SanitizeFileName s !! S i = Some d /\ is_space d = false)).
Proof.
  destruct (sanitize_clean s) as (_ & Hhead & Hlast & Hsp).
  set (out := SanitizeFileName s) in *.
  split; [exact Hhead|]. split; [exact Hlast|].
  intros i c Hi Hc.
  destruct (single_spaces_lookup out i c Hsp Hi Hc) as [-> Hnext].
  split; [done|]. split.
  - destruct i as [|j].
    + rewrite <- head_lookup in Hi. apply Hhead in Hi.
      unfold is_leading in Hi. by rewrite Hc in Hi.
    + destruct (out !! j) as [a|] eqn:Hj.
      2:{ apply lookup_ge_None in Hj. apply lookup_lt_Some in Hi. lia. }
      exists j, a. split; [done|]. split; [done|].
      destruct (is_space a) eqn:Ha; [|done].
      destruct (single_spaces_lookup out j a Hsp Hj Ha) as [_ Hn].
      by rewrite (Hn 32 Hi) in Hc.
  - destruct (out !! S i) as [d|] eqn:Hd.
    + exists d. split; [done|]. by apply Hnext.
    + apply lookup_ge_None in Hd. pose proof (lookup_lt_Some _ _ _ Hi) as Hlt.
      assert (Hl : last out = Some 32).
      { rewrite last_lookup. replace (pred (length out)) with i by lia. exact Hi. }
      apply Hlast in Hl. unfold is_trailing in Hl. by rewrite Hc in Hl.
Qed.

(** X3.  Sanitizing is idempotent, and the names it leaves unchanged are
    exactly the clean ones. *)
Theorem sanitize_idempotent (s : list Z) :
  SanitizeFileName (SanitizeFileName s) = SanitizeFileName s /\
  (SanitizeFileName s = s <-> clean_name s).
Proof.
  split; [apply clean_sanitize, sanitize_clean|].
  split; [intros <-; apply sanitize_clean | apply clean_sanitize].
Qed.

(** X4.  Sanitizing never makes a name longer. *)
Theorem sanitize_length (s : list Z) :
  (length (SanitizeFileName s) <= length s)%nat.
Proof.
  unfold SanitizeFileName, replace_runs.
  etransitivity; [apply length_replace_runs_from; simpl; lia|].
  destruct (strip_end_prefix is_trailing
              (strip_start is_leading
                 (remove_all is_special
                    (replace_runs_from false is_closing (lit ")")
                       (replace_runs_from false is_opening (lit "(") s)))))
    as (l5 & E5 & _).
  destruct (strip_start_suffix is_leading
              (remove_all is_special
                 (replace_runs_from false is_closing (lit ")")
                    (replace_runs_from false is_opening (lit "(") s))))
    as (l4 & E4 & _).
  apply (f_equal length) in E5, E4. rewrite length_app in E5, E4.
  pose proof (List.filter_length_le (fun c => negb (is_special c))
                (replace_runs_from false is_closing (lit ")")
                   (replace_runs_from false is_opening (lit "(") s))) as H3.
  fold (remove_all is_special
          (replace_runs_from false is_closing (lit ")")
             (replace_runs_from false is_opening (lit "(") s))) in H3.
  pose proof (length_replace_runs_from false is_closing (lit ")")
                (replace_runs_from false is_opening (lit "(") s)) as H2.
  pose proof (length_replace_runs_from false is_opening (lit "(") s) as H1.
  simpl in H1, H2. lia.
Qed.


(** *** [ApplyFilenameFormat] and [GetDefaultFileName] *)

Lemma index_of2_absent (a b : Z) (s : list Z) :
  a ∉ s -> index_of2 a b s = None.
Proof.
  induction s as [|c s IH]; [done|]. intros Hc.
  apply not_elem_of_cons in Hc as [Hne Hs].
  destruct s as [|d s]; [done|].
  change (index_of2 a b (c :: d :: s))
    with (if (c =? a) && (d =? b) then Some O else S <$> index_of2 a b (d :: s)).
  destruct (Z.eqb_spec c a); [done|]. cbn [andb]. by rewrite IH.
Qed.

Lemma replace_first2_absent (a b : Z) (r s : list Z) :
  a ∉ s -> replace_first2 a b r s = s.
Proof. intros H. unfold replace_first2. by rewrite index_of2_absent. Qed.

(** X5.  A file name format without a percent sign is taken as it is,
    whatever the date and the tab. *)
Theorem format_without_percent (now : Date) (aFormat : list Z) (tab : Tab) :
  37 ∉ aFormat -> ApplyFilenameFormat now aFormat tab = aFormat.
Proof.
  intros H. unfold ApplyFilenameFormat.
  repeat (rewrite (replace_first2_absent _ _ _ aFormat) by exact H). reflexivity.
Qed.

(** The theorem on the format [shot]. *)
Lemma format_without_percent_witness :
  ApplyFilenameFormat (mkDate 2026 0 5 9 7 3) (lit "shot")
    (mkTab (lit "T") (lit "https://a.b/c") (lit "a.b") (lit "/c"))
  = lit "shot".
Proof.
  apply format_without_percent. vm_compute.
  intros H. repeat (apply elem_of_cons in H as [H|H]; [discriminate H|]).
  by apply elem_of_nil in H.
Defined.

(** The candidates of [GetDefaultFileName], in their order. *)
Lemma default_file_name_cases (now : Date) (aDefaultFileName : list Z) (tab : Tab)
    (aFilenameFormat : list Z) :
  (SanitizeFileName (ApplyFilenameFormat now aFilenameFormat tab) <> [] ->
   GetDefaultFileName now aDefaultFileName tab aFilenameFormat
   = SanitizeFileName (ApplyFilenameFormat now aFilenameFormat tab)) /\
  (SanitizeFileName (ApplyFilenameFormat now aFilenameFormat tab) = [] ->
   SanitizeFileName (title tab) <> [] ->
   GetDefaultFileName now aDefaultFileName tab aFilenameFormat
   = SanitizeFileName (title tab)) /\
  (SanitizeFileName (ApplyFilenameFormat now aFilenameFormat tab) = [] ->
   SanitizeFileName (title tab) = [] ->
   SanitizeFileName (after_last_slash (pathname tab)) <> [] ->
   GetDefaultFileName now aDefaultFileName tab aFilenameFormat
   = SanitizeFileName (after_last_slash (pathname tab))) /\
  (SanitizeFileName (ApplyFilenameFormat now aFilenameFormat tab) = [] ->
   SanitizeFileName (title tab) = [] ->
   SanitizeFileName (after_last_slash (pathname tab)) = [] ->
   GetDefaultFileName now aDefaultFileName tab aFilenameFormat = aDefaultFileName) /\
  (GetDefaultFileName now aDefaultFileName tab aFilenameFormat = aDefaultFileName \/
   (GetDefaultFileName now aDefaultFileName tab aFilenameFormat <> [] /\
    clean_name (GetDefaultFileName now aDefaultFileName tab aFilenameFormat))).
Proof.
  unfold GetDefaultFileName.
  pose proof (sanitize_clean (ApplyFilenameFormat now aFilenameFormat tab)) as H1.
  pose proof (sanitize_clean (title tab)) as H2.
  pose proof (sanitize_clean (after_last_slash (pathname tab))) as H3.
  destruct (SanitizeFileName (ApplyFilenameFormat now aFilenameFormat tab)) as [|c1 f1].
  2:{ repeat split; try done. right. done. }
  destruct (SanitizeFileName (title tab)) as [|c2 f2].
  2:{ repeat split; try done. right. done. }
  destruct (pathname tab) as [|p ps] eqn:Hp.
  { repeat split; try done. left. done. }
  destruct (SanitizeFileName (after_last_slash (p :: ps))) as [|c3 f3].
  - repeat split; try done. by left.
  - repeat split; try done. by right.
Qed.

(** X6.  The default file name is the first candidate that is not empty
    after sanitizing: the formatted name, the title, the last segment of
    the path; failing all of them it is the default given.  Hence it is
    either that default or a clean name that is not empty. *)
Theorem default_file_name (now : Date) (aDefaultFileName : list Z) (tab : Tab)
    (aFilenameFormat : list Z) :
  (SanitizeFileName (ApplyFilenameFormat now aFilenameFormat tab) <> [] ->
   GetDefaultFileName now aDefaultFileName tab aFilenameFormat
   = SanitizeFileName (ApplyFilenameFormat now aFilenameFormat tab)) /\
  (SanitizeFileName (ApplyFilenameFormat now aFilenameFormat tab) = [] ->
   SanitizeFileName (title tab) <> [] ->
   GetDefaultFileName now aDefaultFileName tab aFilenameFormat
   = SanitizeFileName (title tab)) /\
  (SanitizeFileName (ApplyFilenameFormat now aFilenameFormat tab) = [] ->
   SanitizeFileName (title tab) = [] ->
   SanitizeFileName (after_last_slash (pathname tab)) <> [] ->
   GetDefaultFileName now aDefaultFileName tab aFilenameFormat
   = SanitizeFileName (after_last_slash (pathname tab))) /\
  (SanitizeFileName (ApplyFilenameFormat now aFilenameFormat tab) = [] ->
   SanitizeFileName (title tab) = [] ->
   SanitizeFileName (after_last_slash (pathname tab)) = [] ->
   GetDefaultFileName now aDefaultFileName tab aFilenameFormat = aDefaultFileName) /\
  (GetDefaultFileName now aDefaultFileName tab aFilenameFormat = aDefaultFileName \/
   (GetDefaultFileName now aDefaultFileName tab aFilenameFormat <> [] /\
    clean_name (GetDefaultFileName now aDefaultFileName tab aFilenameFormat))).
Proof. apply default_file_name_cases. Qed.

Lemma forbidden_saved_page : Forall (fun c => forbidden c = false) (lit "saved_page").
Proof. vm_compute. repeat constructor. Qed.

(** X7.  The file name of a screenshot is a base that is not empty, a dot
    and the extension of the format, and none of its characters is one that
    sanitizing takes out: in particular it holds no slash and no
    backslash. *)
Theorem filename_safe (now : Date) (tab : Tab) (filenameformat : list Z) (f : Format) :
  (exists base, base <> [] /\
                filename now tab filenameformat f = base ++ lit "." ++ extension f) /\
  (forall c, c ∈ filename now tab filenameformat f ->
             forbidden c = false /\ c <> 47 /\ c <> 92).
Proof.
  unfold filename.
  destruct (default_file_name_cases now (lit "saved_page") tab filenameformat)
    as (_ & _ & _ & _ & Hd).
  set (base := GetDefaultFileName now (lit "saved_page") tab filenameformat) in *.
  assert (Hbase : base <> [] /\ Forall (fun c => forbidden c = false) base).
  { destruct Hd as [-> | [Hne (Hf & _)]]; [|done].
    split; [done | apply forbidden_saved_page]. }
  destruct Hbase as [Hne Hforb]. split; [by exists base|].
  assert (Hall : forall c, c ∈ base ++ lit "." ++ extension f -> forbidden c = false).
  { intros c. rewrite !elem_of_app. intros [Hc|[Hc|Hc]].
    - rewrite Forall_forall in Hforb. by apply Hforb.
    - apply list_elem_of_singleton in Hc as ->. reflexivity.
    - destruct f; vm_compute in Hc;
        repeat (apply elem_of_cons in Hc as [->|Hc]; [reflexivity|]);
        by apply elem_of_nil in Hc. }
  intros c Hc. specialize (Hall c Hc). split; [exact Hall|].
  split; intros ->; discriminate Hall.
Qed.

End NameFacts.

(** ** Placement of the pixels *)

Module StitchFacts.
Import Composite CompositeFacts.

Lemma lookup_flat_map_const {A B : Type} (f : A -> list B) (n : nat)
    (l : list A) (i j : nat) (a : A) :
  (forall a, length (f a) = n) -> l !! i = Some a -> (j < n)%nat ->
  flat_map f l !! (i * n + j)%nat = f a !! j.
Proof.
  intros Hlen. revert i. induction l as [|b l IH]; intros i Hi Hj; [done|].
  simpl. destruct i as [|i].
  - injection Hi as ->. simpl. apply lookup_app_l. by rewrite Hlen.
  - rewrite lookup_app_r by (rewrite Hlen; lia).
    rewrite Hlen. replace (S i * n + j - n)%nat with (i * n + j)%nat by lia.
    by apply IH.
Qed.

Lemma lookup_image_row (cv : Canvas) (sx sw y c j : Z) :
  0 <= c < sw -> 0 <= j < 4 ->
  image_row cv sx sw y !! Z.to_nat (4 * c + j)
  = pixel_bytes cv (sx + c) y !! Z.to_nat j.
Proof.
  intros Hc Hj. unfold image_row.
  replace (Z.to_nat (4 * c + j)) with (Z.to_nat c * 4 + Z.to_nat j)%nat by lia.
  rewrite (lookup_flat_map_const _ 4 _ _ _ (0 + c)).
  - by rewrite Z.add_0_l.
  - intros a. apply length_pixel_bytes.
  - rewrite lookup_seqZ_lt by lia. f_equal. lia.
  - lia.
Qed.

Lemma set_inside (content data : list byte) (off : Z) (content' : list byte) (b : nat) :
  set content data off = Some content' -> (b < length data)%nat ->
  content' !! (Z.to_nat off + b)%nat = data !! b.
Proof.
  unfold set. destruct (_ && _) eqn:H; [|discriminate].
  apply andb_true_iff in H as [H1%Z.leb_le H2%Z.leb_le].
  intros [= <-] Hb.
  rewrite lookup_app_r by (rewrite length_take; lia).
  rewrite length_take.
  replace (Z.to_nat off + b - Z.to_nat off `min` length content)%nat with b by lia.
  by apply lookup_app_l.
Qed.

Lemma set_outside (content data : list byte) (off : Z) (content' : list byte) (k : nat) :
  set content data off = Some content' ->
  (k < Z.to_nat off \/ Z.to_nat off + length data <= k)%nat ->
  content' !! k = content !! k.
Proof.
  unfold set. destruct (_ && _) eqn:H; [|discriminate].
  apply andb_true_iff in H as [H1%Z.leb_le H2%Z.leb_le].
  intros [= <-] [Hk|Hk].
  - rewrite lookup_app_l by (rewrite length_take; lia).
    by apply lookup_take_lt.
  - rewrite lookup_app_r by (rewrite length_take; lia).
    rewrite lookup_app_r by (rewrite length_take; lia).
    rewrite length_take, lookup_drop. f_equal. lia.
Qed.

Lemma set_same_length (content data : list byte) (off : Z) (content' : list byte) :
  set content data off = Some content' -> length content' = length content.
Proof.
  unfold set. destruct (_ && _) eqn:H; [|discriminate].
  apply andb_true_iff in H as [H1%Z.leb_le H2%Z.leb_le].
  intros [= <-]. rewrite !length_app, length_take, length_drop. lia.
Qed.


(** What the row loop has written after [n] rounds from row [i] on: the
    rows [i .. i + n - 1] of the tile at their offsets, everything else as
    before.  The rows of a tile that fits in the width of the region do not
    overlap. *)
Lemma copy_rows_from_written (n : nat) (cv : Canvas) (x y w rw scl : Z) :
  0 <= x -> 0 <= w * scl -> x + w * scl <= rw * scl ->
  forall (i : Z) (content content' : list byte),
  copy_rows_from n i cv content x y w rw scl = Some content' ->
  length content' = length content /\
  (forall r b, i <= r < i + Z.of_nat n -> 0 <= b < 4 * (w * scl) ->
               content' !! Z.to_nat (((y + r) * rw * scl + x) * 4 + b)
               = image_row cv 0 (w * scl) r !! Z.to_nat b) /\
  (forall k, 0 <= k ->
             (forall r, i <= r < i + Z.of_nat n ->
                        k < ((y + r) * rw * scl + x) * 4 \/
                        ((y + r) * rw * scl + x) * 4 + 4 * (w * scl) <= k) ->
             content' !! Z.to_nat k = content !! Z.to_nat k).
Proof.
  intros Hx Hw Hfit. induction n as [|n IH]; intros i content content' Hrun.
  - injection Hrun as <-. split; [done|]. split; [intros; lia | done].
  - cbn [copy_rows_from] in Hrun. rewrite getImageData_row in Hrun.
    destruct (set content (image_row cv 0 (w * scl) i) _) as [c1|] eqn:Hset;
      [|discriminate].
    destruct (IH (i + 1) c1 content' Hrun) as (Hlen & Hin & Hout).
    assert (Hoff : 0 <= ((y + i) * rw * scl + x) * 4).
    { unfold set in Hset. destruct (Z.leb_spec 0 (((y + i) * rw * scl + x) * 4));
        [done | discriminate]. }
    pose proof (length_image_row cv 0 (w * scl) i) as Hrow.
    split; [by rewrite Hlen, (set_same_length _ _ _ _ Hset)|]. split.
    + intros r b Hr Hb. destruct (Z.eq_dec r i) as [->|Hne].
      * rewrite Hout; [| lia | intros r' Hr'; left; nia].
        replace (Z.to_nat (((y + i) * rw * scl + x) * 4 + b))
          with (Z.to_nat (((y + i) * rw * scl + x) * 4) + Z.to_nat b)%nat by lia.
        apply (set_inside _ _ _ _ _ Hset). lia.
      * apply Hin; lia.
    + intros k Hk Hfree. rewrite Hout; [| done | intros r' Hr'; apply Hfree; lia].
      apply (set_outside _ _ _ _ _ Hset).
      destruct (Hfree i ltac:(lia)); lia.
Qed.

(** The row loop ends without a [RangeError] when every row lies inside the
    buffer. *)
Lemma copy_rows_from_fits (n : nat) (cv : Canvas) (x y w rw scl : Z) :
  0 <= w * scl ->
  forall (i : Z) (content : list byte),
  (forall r, i <= r < i + Z.of_nat n ->
             0 <= ((y + r) * rw * scl + x) * 4 /\
             ((y + r) * rw * scl + x) * 4 + 4 * (w * scl) <= Z.of_nat (length content)) ->
  exists content', copy_rows_from n i cv content x y w rw scl = Some content'.
Proof.
  intros Hw. induction n as [|n IH]; intros i content Hin; [by eexists|].
  cbn [copy_rows_from]. rewrite getImageData_row.
  destruct (Hin i ltac:(lia)) as [H0 H1].
  rewrite set_fits; [| done | rewrite length_image_row; lia].
  apply IH. intros r Hr.
  rewrite !length_app, length_take, length_drop, length_image_row.
  destruct (Hin r ltac:(lia)) as [H2 H3]. split; [done|]. lia.
Qed.

(** On a full-width tile the bulk copy is the row loop. *)
Lemma copy_bulk_rows (cv : Canvas) (content : list byte) (y h rw scl : Z) :
  0 < h * scl -> 0 <= rw * scl ->
  copy_bulk cv content y rw h rw scl = copy_rows cv content 0 y rw h rw scl.
Proof.
  intros Hh Hrw. unfold copy_bulk, copy_rows.
  assert (Hrows : exists n, Z.to_nat (h * scl) = S n).
  { exists (Nat.pred (Z.to_nat (h * scl))). lia. }
  destruct Hrows as [n Hn]. rewrite Hn, copy_rows_from_block by done.
  rewrite getImageData_rows.
  replace (Z.of_nat (S n)) with (h * scl) by lia.
  f_equal. lia.
Qed.

Lemma copy_tile_rows (image : Z -> Z -> Pixel) (content : list byte)
    (x y w h rw scl : Z) :
  0 < h * scl -> 0 <= rw * scl ->
  copy_tile image content x y w h rw scl
  = copy_rows (mkCanvas (w * scl) (h * scl) image) content x y w h rw scl.
Proof.
  intros Hh Hrw. unfold copy_tile.
  destruct (Z.eqb_spec x 0) as [->|]; [|done].
  destruct (Z.eqb_spec w rw) as [->|]; [|done].
  cbn [andb]. by apply copy_bulk_rows.
Qed.

Lemma pixel_at_lookup (content : list byte) (rw px py : Z) (l : list byte) :
  length l = 4%nat ->
  (forall j, 0 <= j < 4 ->
             content !! Z.to_nat ((py * rw + px) * 4 + j) = l !! Z.to_nat j) ->
  0 <= (py * rw + px) * 4 ->
  pixel_at content rw px py = l.
Proof.
  intros Hl Hj Hpos. unfold pixel_at. apply list_eq. intros j.
  destruct (decide (j < 4)%nat) as [Hlt|Hge].
  - rewrite lookup_take_lt, lookup_drop by done.
    specialize (Hj (Z.of_nat j) ltac:(lia)). rewrite Nat2Z.id in Hj.
    rewrite <- Hj. f_equal. lia.
  - rewrite lookup_take_ge by lia. symmetry. apply lookup_ge_None. lia.
Qed.


Lemma pixel_at_ext (c1 c2 : list byte) (rw px py : Z) :
  0 <= (py * rw + px) * 4 ->
  (forall j, 0 <= j < 4 ->
             c1 !! Z.to_nat ((py * rw + px) * 4 + j)
             = c2 !! Z.to_nat ((py * rw + px) * 4 + j)) ->
  pixel_at c1 rw px py = pixel_at c2 rw px py.
Proof.
  intros Hpos Hj. unfold pixel_at. apply list_eq. intros j.
  destruct (decide (j < 4)%nat) as [Hlt|Hge].
  - rewrite !lookup_take_lt, !lookup_drop by done.
    specialize (Hj (Z.of_nat j) ltac:(lia)).
    replace (Z.to_nat ((py * rw + px) * 4 + Z.of_nat j))
      with (Z.to_nat ((py * rw + px) * 4) + j)%nat in Hj by lia.
    exact Hj.
  - by rewrite !lookup_take_ge by lia.
Qed.

Lemma length_bytes_of (p : Pixel) : length (bytes_of p) = 4%nat.
Proof. by destruct p as [[[r g] b] a]. Qed.

Lemma pixel_bytes_inside (cv : Canvas) (x y : Z) :
  0 <= x < cv_width cv -> 0 <= y < cv_height cv ->
  pixel_bytes cv x y = bytes_of (cv_pixel cv x y).
Proof.
  intros Hx Hy. unfold pixel_bytes.
  destruct (Z.leb_spec 0 x), (Z.ltb_spec x (cv_width cv)),
    (Z.leb_spec 0 y), (Z.ltb_spec y (cv_height cv)); try lia.
  reflexivity.
Qed.

(** The copy of one tile at a whole device scale. *)
Lemma copy_tile_scaled (image : Z -> Z -> Pixel) (content : list byte)
    (x y w h rw rh scl : Z) :
  1 <= scl ->
  0 <= x -> 0 <= y -> 0 < w -> 0 < h -> x + w <= rw -> y + h <= rh ->
  Z.of_nat (length content) = (rw * scl) * (rh * scl) * 4 ->
  exists content',
    copy_tile image content x y w h rw scl = Some content' /\
    length content' = length content /\
    forall px py, 0 <= px < rw * scl -> 0 <= py < rh * scl ->
      pixel_at content' (rw * scl) px py =
      if (x <=? px) && (px <? x + w * scl) && (y <=? py) && (py <? y + h * scl)
      then bytes_of (image (px - x) (py - y))
      else pixel_at content (rw * scl) px py.
Proof.
  intros Hscl Hx Hy Hw Hh Hxw Hyh Hlen.
  assert (HW : 0 < w * scl) by nia.
  assert (HH : 0 < h * scl) by nia.
  assert (Hfx : x + w * scl <= rw * scl) by nia.
  assert (Hfy : y + h * scl <= rh * scl) by nia.
  rewrite copy_tile_rows by nia. unfold copy_rows.
  set (cv := mkCanvas (w * scl) (h * scl) image).
  remember (rw * scl) as RW eqn:HRW.
  remember (rh * scl) as RH eqn:HRH.
  remember (w * scl) as W eqn:HeqW.
  remember (h * scl) as H eqn:HeqH.
  assert (Hoff : forall r, (y + r) * rw * scl = (y + r) * RW) by (intros r; subst RW; ring).
  destruct (copy_rows_from_fits (Z.to_nat H) cv x y w rw scl ltac:(lia) 0 content)
    as [content' Hrun].
  { intros r Hr. rewrite Hoff, <- HeqW, Hlen. split; nia. }
  exists content'. split; [exact Hrun|].
  destruct (copy_rows_from_written _ cv x y w rw scl ltac:(lia) ltac:(lia) ltac:(lia)
              0 content content' Hrun) as (Hl & Hin & Hout).
  split; [exact Hl|]. intros px py Hpx Hpy.
  destruct ((x <=? px) && (px <? x + W) && (y <=? py) && (py <? y + H)) eqn:Hcov.
  - apply andb_true_iff in Hcov as [Hcov Hc4%Z.ltb_lt].
    apply andb_true_iff in Hcov as [Hcov Hc3%Z.leb_le].
    apply andb_true_iff in Hcov as [Hc1%Z.leb_le Hc2%Z.ltb_lt].
    apply pixel_at_lookup; [apply length_bytes_of | | nia].
    intros j Hj.
    replace ((py * RW + px) * 4 + j)
      with (((y + (py - y)) * rw * scl + x) * 4 + (4 * (px - x) + j))
      by (rewrite Hoff; ring).
    rewrite Hin by lia. rewrite <- HeqW.
    rewrite lookup_image_row by lia.
    rewrite pixel_bytes_inside by (subst cv; simpl; lia).
    subst cv. simpl. by rewrite Z.add_0_l.
  - apply pixel_at_ext; [nia|]. intros j Hj. apply Hout; [nia|].
    intros r Hr. rewrite Hoff, <- HeqW.
    destruct (Z.lt_ge_cases ((py * RW + px) * 4 + j) (((y + r) * RW + x) * 4))
      as [?|Hge]; [by left|]. right.
    destruct (Z.le_gt_cases (((y + r) * RW + x) * 4 + 4 * W)
                ((py * RW + px) * 4 + j)) as [?|Hlt]; [done|]. exfalso.
    assert (Hrow : py = y + r).
    { destruct (Z.lt_trichotomy py (y + r)) as [Hl1|[?|Hl1]]; [|done|]; nia. }
    subst py.
    assert (x <= px < x + W) by nia.
    destruct (Z.leb_spec x px), (Z.ltb_spec px (x + W)),
      (Z.leb_spec y (y + r)), (Z.ltb_spec (y + r) (y + H));
      first [lia | discriminate Hcov].
Qed.

(** The copy of one tile at device scale 1. *)
Lemma copy_tile_scale_1 (image : Z -> Z -> Pixel) (content : list byte)
    (x y w h rw rh : Z) :
  0 <= x -> 0 <= y -> 0 < w -> 0 < h -> x + w <= rw -> y + h <= rh ->
  Z.of_nat (length content) = rw * rh * 4 ->
  exists content',
    copy_tile image content x y w h rw 1 = Some content' /\
    length content' = length content /\
    forall px py, 0 <= px < rw -> 0 <= py < rh ->
      pixel_at content' rw px py =
      if (x <=? px) && (px <? x + w) && (y <=? py) && (py <? y + h)
      then bytes_of (image (px - x) (py - y))
      else pixel_at content rw px py.
Proof.
  intros Hx Hy Hw Hh Hxw Hyh Hlen.
  destruct (copy_tile_scaled image content x y w h rw rh 1)
    as (content' & Hrun & Hl & Hp); [lia..| |].
  { rewrite Hlen. ring. }
  exists content'. split; [exact Hrun|]. split; [exact Hl|].
  intros px py Hpx Hpy. specialize (Hp px py).
  rewrite !Z.mul_1_r in Hp. by apply Hp.
Qed.

(** X8.  At a whole device scale [scl] the copy of a tile that lies inside the
    region ends without a [RangeError] and keeps the size of the buffer.
    The [w * scl] by [h * scl] pixels of the tile come to lie in the device
    pixels from [(x, y)] on, in a picture of [rw * scl] pixels a row, and
    every other pixel is left as it was.  The origin [(x, y)] is the one of
    the tile in the region, not multiplied by the scale: it is the place of
    the tile in the scaled picture at scale 1, and for a tile at the origin
    of the region. *)
Theorem copy_tile_places_pixels (image : Z -> Z -> Pixel) (content : list byte)
    (x y w h rw rh scl : Z) :
  1 <= scl ->
  0 <= x -> 0 <= y -> 0 < w -> 0 < h -> x + w <= rw -> y + h <= rh ->
  Z.of_nat (length content) = (rw * scl) * (rh * scl) * 4 ->
  exists content',
    copy_tile image content x y w h rw scl = Some content' /\
    length content' = length content /\
    forall px py, 0 <= px < rw * scl -> 0 <= py < rh * scl ->
      pixel_at content' (rw * scl) px py =
      if (x <=? px) && (px <? x + w * scl) && (y <=? py) && (py <? y + h * scl)
      then bytes_of (image (px - x) (py - y))
      else pixel_at content (rw * scl) px py.
Proof. apply copy_tile_scaled. Qed.

(** The theorem for a tile of 1 x 2 pixels in the middle column of a region
    of 3 x 2, at scale 2. *)
Lemma copy_tile_places_pixels_witness :
  exists content',
    copy_tile (fun x y => (Byte.x01, Byte.x02, Byte.x03, Byte.xff))
      (repeat Byte.x00 96) 1 0 1 2 3 2 = Some content' /\
    length content' = length (repeat Byte.x00 96) /\
    forall px py, 0 <= px < 3 * 2 -> 0 <= py < 2 * 2 ->
      pixel_at content' (3 * 2) px py =
      if (1 <=? px) && (px <? 1 + 1 * 2) && (0 <=? py) && (py <? 0 + 2 * 2)
      then bytes_of ((fun x y => (Byte.x01, Byte.x02, Byte.x03, Byte.xff)) (px - 1) (py - 0))
      else pixel_at (repeat Byte.x00 96) (3 * 2) px py.
Proof.
  apply (copy_tile_places_pixels
           (fun x y => (Byte.x01, Byte.x02, Byte.x03, Byte.xff))
           (repeat Byte.x00 96) 1 0 1 2 3 2 2); try lia. reflexivity.
Defined.

Example copy_tile_middle_column :
  copy_tile (fun x y => (Byte.x01, Byte.x02, Byte.x03, Byte.xff))
    (repeat Byte.x00 24) 1 0 1 2 3 1
  = Some (repeat Byte.x00 4 ++ [Byte.x01; Byte.x02; Byte.x03; Byte.xff] ++
          repeat Byte.x00 8 ++ [Byte.x01; Byte.x02; Byte.x03; Byte.xff] ++
          repeat Byte.x00 4).
Proof. vm_compute. reflexivity. Qed.

(** *** All tiles *)

Lemma pairwise_Permutation {A : Type} (R : A -> A -> Prop) (l l' : list A) :
  (forall a b, R a b -> R b a) -> l ≡ₚ l' -> pairwise R l -> pairwise R l'.
Proof.
  intros Hsym Hp. induction Hp as [|a l l' Hp IH|a b l|l1 l2 l3 H12 IH12 H23 IH23].
  - done.
  - simpl. intros [Ha Hl]. split; [by rewrite <- Hp | by apply IH].
  - simpl. intros [Hb [Ha Hl]]. inversion Hb as [|? ? Hba Hbl]; subst.
    split; [constructor; [by apply Hsym | done] | split; done].
  - intros H. by apply IH23, IH12.
Qed.

(** Tiles that lie in the region and do not overlap are stitched, in the
    order of the list, into an image that shows each of them at its
    place. *)
Lemma stitch_disjoint (images : Tile -> Z -> Z -> Pixel) (rw rh : Z) (l : list Tile) :
  Forall (fun t => 0 <= tile_x t /\ 0 <= tile_y t /\ 0 < tile_w t /\ 0 < tile_h t /\
                   tile_x t + tile_w t <= rw /\ tile_y t + tile_h t <= rh) l ->
  pairwise tiles_disjoint l ->
  forall content : list byte,
  Z.of_nat (length content) = rw * rh * 4 ->
  exists content',
    stitch images l content rw 1 = Some content' /\
    length content' = length content /\
    forall px py, 0 <= px < rw -> 0 <= py < rh ->
      (forall t, t ∈ l -> covers t px py ->
                 pixel_at content' rw px py
                 = bytes_of (images t (px - tile_x t) (py - tile_y t))) /\
      ((forall t, t ∈ l -> ~ covers t px py) ->
       pixel_at content' rw px py = pixel_at content rw px py).
Proof.
  induction l as [|t l IH]; intros Hin Hdis content Hlen.
  - exists content. split; [done|]. split; [done|]. intros px py _ _.
    split; [by intros t ?%elem_of_nil | done].
  - inversion Hin as [|? ? (Hx & Hy & Hw & Hh & Hxw & Hyh) Hin']; subst.
    destruct Hdis as [Ht Hdis].
    destruct (copy_tile_scale_1 (images t) content (tile_x t) (tile_y t)
                (tile_w t) (tile_h t) rw rh Hx Hy Hw Hh Hxw Hyh Hlen)
      as (c1 & Hc1 & Hl1 & Hp1).
    destruct (IH Hin' Hdis c1 ltac:(by rewrite Hl1)) as (c' & Hc' & Hl' & Hp').
    exists c'. cbn [stitch]. rewrite Hc1. split; [exact Hc'|].
    split; [by rewrite Hl', Hl1|]. intros px py Hpx Hpy.
    destruct (Hp' px py Hpx Hpy) as [Hcov Hfree].
    specialize (Hp1 px py Hpx Hpy).
    assert (Hb : covers t px py <->
                 (tile_x t <=? px) && (px <? tile_x t + tile_w t) &&
                 (tile_y t <=? py) && (py <? tile_y t + tile_h t) = true).
    { unfold covers. rewrite !andb_true_iff, !Z.leb_le, !Z.ltb_lt. tauto. }
    split.
    + intros t' Ht' Hct'. apply elem_of_cons in Ht' as [->|Ht']; [|by apply Hcov].
      rewrite Hfree.
      * apply Hb in Hct'. by rewrite Hct' in Hp1.
      * intros t2 Ht2 Hc2. rewrite Forall_forall in Ht.
        by apply (Ht t2 Ht2 px py).
    + intros Hnone. rewrite Hfree.
      * destruct (_ && _) eqn:E in Hp1; [|done].
        exfalso. apply (Hnone t); [by left | by apply Hb].
      * intros t2 Ht2. apply Hnone. by right.
Qed.

(** X9.  At device scale 1, whatever the order in which the decoded tiles
    of the planner are copied into a buffer of [rw * rh * 4] bytes, no copy
    raises a [RangeError], and in the end every pixel of the region shows
    the pixel of the tile that covers it. *)
Theorem stitch_assembles_region (images : Tile -> Z -> Z -> Pixel)
    (rw rh mw mh : Z) (content : list byte) :
  0 < rw -> 0 < rh -> 0 < mw -> 0 < mh ->
  Z.of_nat (length content) = rw * rh * 4 ->
  exists ts,
    Planner.plan rw rh mw mh = Some ts /\
    forall order, order ≡ₚ ts ->
      exists content',
        stitch images order content rw 1 = Some content' /\
        length content' = length content /\
        forall px py, 0 <= px < rw -> 0 <= py < rh ->
          exists t, t ∈ ts /\ covers t px py /\
                    pixel_at content' rw px py
                    = bytes_of (images t (px - tile_x t) (py - tile_y t)).
Proof.
  intros Hrw Hrh Hmw Hmh Hlen.
  destruct (PlannerFacts.plan_grid rw rh mw mh Hrw Hrh Hmw Hmh)
    as (ts & Hts & Hall & Hcov & Hdis).
  exists ts. split; [exact Hts|]. intros order Hperm.
  destruct (stitch_disjoint images rw rh order) with (content := content)
    as (c' & Hc' & Hl' & Hp').
  - rewrite Hperm. eapply Forall_impl; [exact Hall|]. simpl.
    intros t Ht. repeat split; lia.
  - apply (pairwise_Permutation _ ts); [apply PlannerFacts.tiles_disjoint_sym | done | done].
  - exact Hlen.
  - exists c'. split; [exact Hc'|]. split; [exact Hl'|].
    intros px py Hpx Hpy. destruct (Hcov px py Hpx ltac:(lia)) as (t & Ht & Hct).
    exists t. split; [exact Ht|]. split; [exact Hct|].
    apply (Hp' px py Hpx Hpy); [by rewrite Hperm | exact Hct].
Qed.

(** The theorem for a region of 3 x 2 pixels cut into tiles of at most
    2 x 1. *)
Lemma stitch_assembles_region_witness :
  exists ts,
    Planner.plan 3 2 2 1 = Some ts /\
    forall order, order ≡ₚ ts ->
      exists content',
        stitch (fun t x y => (Byte.x01, Byte.x02, Byte.x03, Byte.xff)) order
          (repeat Byte.x00 24) 3 1 = Some content' /\
        length content' = length (repeat Byte.x00 24) /\
        forall px py, 0 <= px < 3 -> 0 <= py < 2 ->
          exists t, t ∈ ts /\ covers t px py /\
                    pixel_at content' 3 px py
                    = bytes_of ((fun (t : Tile) (x y : Z) =>
                                   (Byte.x01, Byte.x02, Byte.x03, Byte.xff))
                                  t (px - tile_x t) (py - tile_y t)).
Proof.
  apply (stitch_assembles_region
           (fun t x y => (Byte.x01, Byte.x02, Byte.x03, Byte.xff)) 3 2 2 1
           (repeat Byte.x00 24)); try lia. reflexivity.
Defined.


(** *** Tiles below each other at a scale above 1 *)

(** X10.  At a whole device scale of 2 or more, take a region of two full-width
    tiles, one below the other, copied in the order of the plan.  Both
    copies end without a [RangeError], and the device rows from [h1] on,
    which lie in the upper tile's part [0 .. h1 * scl) of the picture, show
    the top rows of the lower tile. *)
Theorem lower_tile_overwrites_upper (images : Tile -> Z -> Z -> Pixel)
    (content : list byte) (rw h1 h2 scl : Z) :
  2 <= scl -> 0 < rw -> 0 < h1 -> 0 < h2 ->
  Z.of_nat (length content) = (rw * scl) * ((h1 + h2) * scl) * 4 ->
  exists content',
    stitch images [mkTile 0 0 rw h1; mkTile 0 h1 rw h2] content rw scl
    = Some content' /\
    forall px py, 0 <= px < rw * scl ->
      h1 <= py < h1 * scl -> py < h1 + h2 * scl ->
      pixel_at content' (rw * scl) px py
      = bytes_of (images (mkTile 0 h1 rw h2) px (py - h1)).
Proof.
  intros Hscl Hrw Hh1 Hh2 Hlen.
  destruct (copy_tile_scaled (images (mkTile 0 0 rw h1)) content 0 0 rw h1 rw (h1 + h2) scl)
    as (c1 & Hc1 & Hl1 & _); [lia..| done |].
  destruct (copy_tile_scaled (images (mkTile 0 h1 rw h2)) c1 0 h1 rw h2 rw (h1 + h2) scl)
    as (c2 & Hc2 & Hl2 & Hp2); [lia..| by rewrite Hl1 |].
  exists c2. cbn [stitch tile_x tile_y tile_w tile_h]. rewrite Hc1, Hc2.
  split; [done|]. intros px py Hpx Hpy1 Hpy2.
  rewrite Hp2 by nia.
  destruct (Z.leb_spec 0 px), (Z.ltb_spec px (0 + rw * scl)),
    (Z.leb_spec h1 py), (Z.ltb_spec py (h1 + h2 * scl)); try lia.
  cbn [andb]. by rewrite Z.sub_0_r.
Qed.

(** The theorem for two tiles of 1 x 1 pixel at scale 2. *)
Lemma lower_tile_overwrites_upper_witness :
  exists content',
    stitch (fun t x y => if tile_y t =? 0
                         then (Byte.x01, Byte.x01, Byte.x01, Byte.xff)
                         else (Byte.x02, Byte.x02, Byte.x02, Byte.xff))
      [mkTile 0 0 1 1; mkTile 0 1 1 1] (repeat Byte.x00 32) 1 2
    = Some content' /\
    forall px py, 0 <= px < 1 * 2 ->
      1 <= py < 1 * 2 -> py < 1 + 1 * 2 ->
      pixel_at content' (1 * 2) px py
      = bytes_of ((fun t x y => if tile_y t =? 0
                                then (Byte.x01, Byte.x01, Byte.x01, Byte.xff)
                                else (Byte.x02, Byte.x02, Byte.x02, Byte.xff))
                    (mkTile 0 1 1 1) px (py - 1)).
Proof.
  apply (lower_tile_overwrites_upper
           (fun t x y => if tile_y t =? 0
                         then (Byte.x01, Byte.x01, Byte.x01, Byte.xff)
                         else (Byte.x02, Byte.x02, Byte.x02, Byte.xff))
           (repeat Byte.x00 32) 1 1 1 2); try lia. reflexivity.
Defined.

(** The picture of that region: the second row shows the lower tile, and
    the last row is never written. *)
Example stitch_two_rows_scale_2 :
  stitch (fun t x y => if tile_y t =? 0
                       then (Byte.x01, Byte.x01, Byte.x01, Byte.xff)
                       else (Byte.x02, Byte.x02, Byte.x02, Byte.xff))
    [mkTile 0 0 1 1; mkTile 0 1 1 1] (repeat Byte.x00 32) 1 2
  = Some ([Byte.x01; Byte.x01; Byte.x01; Byte.xff; Byte.x01; Byte.x01; Byte.x01; Byte.xff] ++
          [Byte.x02; Byte.x02; Byte.x02; Byte.xff; Byte.x02; Byte.x02; Byte.x02; Byte.xff] ++
          [Byte.x02; Byte.x02; Byte.x02; Byte.xff; Byte.x02; Byte.x02; Byte.x02; Byte.xff] ++
          repeat Byte.x00 8).
Proof. vm_compute. reflexivity. Qed.

End StitchFacts.

(** ** The course of a request *)

Module RequestFacts.
Import Planner OrchestratorFacts.

#[local] Hint Rewrite log_emits log_emit log_set_locks log_set_now log_wait_until
  log_set_restore log_set_tasks log_set_is_first log_set_content
  content_emits content_emit content_set_locks content_set_now content_wait_until
  content_set_restore content_set_tasks content_set_is_first content_set_content : st.

Lemma logs_refl (Q : Effect -> bool) (s s' : St) : log s' = log s -> logs Q s s'.
Proof. intros H. exists []. by rewrite app_nil_r. Qed.

Lemma logs_trans (Q : Effect -> bool) (s1 s2 s3 : St) :
  logs Q s1 s2 -> logs Q s2 s3 -> logs Q s1 s3.
Proof.
  intros (es1 & H1 & F1) (es2 & H2 & F2). exists (es1 ++ es2).
  split; [by rewrite H2, H1, app_assoc | by apply Forall_app].
Qed.

Lemma logs_impl (Q Q' : Effect -> bool) (s s' : St) :
  (forall e, Q e = true -> Q' e = true) -> logs Q s s' -> logs Q' s s'.
Proof.
  intros HQ (es & H & F). exists es. split; [done|].
  eapply Forall_impl; [exact F | exact HQ].
Qed.

(** Closes [logs Q s s'] once [s'] is a chain of primitive updates of [s]
    that log calls known by name. *)
Ltac logs_chain :=
  eexists; split;
  [ autorewrite with st; rewrite <- ?app_assoc;
    first [reflexivity | symmetry; apply app_nil_r]
  | repeat constructor ].

Lemma logs_lock_tab (Q : Effect -> bool) env s : logs Q s (lock_tab env s).2.
Proof. apply logs_refl. apply lock_tab_quiet. Qed.

Lemma logs_setup env req s : logs of_prepare s (setup_compensator env req s).
Proof. unfold setup_compensator, resetScrollPosition. split_ifs; logs_chain. Qed.

Lemma logs_prepare env req s : logs of_prepare s (prepare env req s).
Proof.
  unfold prepare. apply (logs_trans _ _ (setup_compensator env req s));
    [apply logs_setup|]. destruct (badge env); logs_chain.
Qed.

Lemma logs_update_css req x y w h s :
  logs of_capture s (updateScrollPosition_css req x y w h s).2.
Proof.
  unfold updateScrollPosition_css, resetScrollPosition, applyCssScroll.
  split_ifs; cbn [snd]; logs_chain.
Qed.

Lemma logs_update_js req x y w h s :
  logs of_capture s (updateScrollPosition_js req x y w h s).2.
Proof.
  unfold updateScrollPosition_js, resetScrollPosition.
  split_ifs; cbn [snd]; logs_chain.
Qed.

Lemma logs_capture_tile env req n t s : logs of_capture s (capture_tile env req n t s).
Proof.
  unfold capture_tile.
  set (s0 := if badge env then _ else s).
  assert (H0 : logs of_capture s s0) by (subst s0; split_ifs; logs_chain).
  destruct (use_native env req).
  - apply (logs_trans _ _ s0); [exact H0|]. split_ifs; logs_chain.
  - set (s1 := if use_css_croll env req then _ else _).
    assert (H1 : logs of_capture s0 s1).
    { subst s1. destruct (use_css_croll env req); [apply logs_update_css|].
      destruct (use_js_scroll env req); [apply logs_update_js|]. logs_chain. }
    apply (logs_trans _ _ s1); [by apply (logs_trans _ _ s0)|].
    split_ifs; logs_chain.
Qed.

Lemma logs_capture_all env req n ts s : logs of_capture s (capture_all env req n ts s).
Proof.
  revert n s. induction ts as [|t ts IH]; intros n s; simpl; [logs_chain|].
  apply (logs_trans _ _ (capture_tile env req n t s));
    [apply logs_capture_tile | apply IH].
Qed.

Lemma logs_restore req s : logs of_restore s (restoreScrollPosition req s).
Proof.
  unfold restoreScrollPosition. destruct (restore s); try logs_chain.
  apply Forall_app. split; [|repeat constructor].
  cbn [tasks set_restore]. induction (tasks s); constructor; auto.
Qed.

Lemma logs_encode env req clk s : logs of_encode s (encode env req clk s).
Proof.
  unfold encode.
  destruct (request_one_canvas _ _); [logs_chain|].
  destruct (Mutex.lock _ _ false _ _ _) as [[got t] tbl].
  destruct got; [logs_chain|].
  destruct (Mutex.lock _ _ true _ _ _) as [[got' t'] tbl'].
  destruct (badge env); logs_chain.
Qed.

Lemma logs_deliver env req s : logs of_delivery s (deliver env req s).
Proof.
  unfold deliver.
  destruct (format req), (savemethod (prefs env)); split_ifs; logs_chain.
Qed.

(** [finish], cut before the delivery. *)
Lemma finish_deliver env req clk s :
  exists s', finish env req clk s = deliver env req s' /\
             logs of_encode (restoreScrollPosition req s) s'.
Proof.
  unfold finish.
  set (s1 := restoreScrollPosition req s).
  set (s2 := if badge env then _ else s1).
  set (s3 := set_locks _ (emit EEnable s2)).
  exists (encode env req clk s3). split; [reflexivity|].
  assert (H2 : logs of_encode s1 s2) by (subst s2; destruct (badge env); logs_chain).
  assert (H3 : logs of_encode s2 s3) by (subst s3; logs_chain).
  apply (logs_trans _ _ s3); [by apply (logs_trans _ _ s2)|].
  apply logs_encode.
Qed.

(** What follows the restoring of the scroll position in [finish]. *)
Lemma logs_finish env req clk s :
  logs of_delivery (restoreScrollPosition req s) (finish env req clk s).
Proof.
  destruct (finish_deliver env req clk s) as (s' & -> & H).
  apply (logs_trans _ _ s'); [|apply logs_deliver].
  eapply logs_impl; [|exact H]. by intros [| | [] | [] | [] | | [] | | | | | | | | | | | | | |].
Qed.

Lemma logs_finally env clk s : logs of_finally s (finally_block env clk s).
Proof.
  unfold finally_block, lock_tab.
  destruct (Mutex.lock _ _ _ _ _ _) as [[got t] tbl].
  destruct got; [destruct (badge env)|]; logs_chain.
Qed.


(** *** The capture jobs *)

(** The log of the jobs of one tile: the badge text, the compensation and
    the capture call. *)
Lemma capture_tile_log env req n t s :
  exists mid,
    log (capture_tile env req n t s)
    = log s ++ (if badge env then [ESetBadgeText (text_count n)] else []) ++
      mid ++ [capture_call env req t] /\
    Forall (fun e => of_compensate e = true) mid /\
    (use_native env req = true -> mid = []).
Proof.
  unfold capture_tile, capture_call, native_call.
  destruct (use_native env req) eqn:Hn.
  - exists []. split; [|by split].
    destruct (badge env), (BROWSER_VERSION_MAJOR env >=? 82);
      autorewrite with st; by rewrite <- ?app_assoc.
  - unfold use_css_croll, use_js_scroll. rewrite Hn. cbn [negb andb].
    set (s0 := if badge env then _ else s).
    assert (H0 : log s0 = log s ++ (if badge env then [ESetBadgeText (text_count n)] else [])).
    { subst s0. destruct (badge env); autorewrite with st; by rewrite ?app_nil_r. }
    assert (H1 : exists mid,
               log (updateScrollPosition_css req (left req + tile_x t) (top req + tile_y t)
                      (tile_w t) (tile_h t) s0).2 = log s0 ++ mid /\
               Forall (fun e => of_compensate e = true) mid).
    { unfold updateScrollPosition_css, resetScrollPosition, applyCssScroll.
      split_ifs; cbn [snd]; eexists;
        (split; [autorewrite with st; rewrite <- ?app_assoc;
                 first [reflexivity | symmetry; apply app_nil_r]
                | repeat constructor]). }
    destruct H1 as (mid & H1 & Hmid). exists mid. split; [|by split].
    destruct (BROWSER_VERSION_MAJOR env >=? 59); autorewrite with st;
      rewrite H1, H0; by rewrite <- !app_assoc.
Qed.

(** The log of all capture jobs: its counter texts and its capture calls. *)
Lemma capture_all_log env req n ts s :
  exists es,
    log (capture_all env req n ts s) = log s ++ es /\
    List.filter is_count es
    = (if badge env then countdown n (length ts) else []) /\
    List.filter is_capture es = capture_call env req <$> ts /\
    (use_native env req = true -> Forall (fun e => is_page_mutation e = false) es).
Proof.
  revert n s. induction ts as [|t ts IH]; intros n s.
  - exists []. simpl. rewrite app_nil_r. by destruct (badge env).
  - cbn [capture_all].
    destruct (capture_tile_log env req n t s) as (mid & Ht & Hmid & Hnat).
    destruct (IH (n - 1) (capture_tile env req n t s)) as (es & Hes & Hc & Hk & Hp).
    exists ((if badge env then [ESetBadgeText (text_count n)] else []) ++
            mid ++ [capture_call env req t] ++ es).
    assert (Hmc : List.filter is_count mid = [] /\ List.filter is_capture mid = []).
    { clear Ht Hnat. induction Hmid as [|e mid He _ [IH1 IH2]]; [done|].
      simpl. rewrite IH1, IH2. by destruct e as [| | | | | | | | | | |[]| | | | | | | | |]. }
    destruct Hmc as [Hm1 Hm2].
    assert (Hcall : is_count (capture_call env req t) = false /\
                    is_capture (capture_call env req t) = true /\
                    is_page_mutation (capture_call env req t) = false).
    { unfold capture_call, native_call. by split_ifs. }
    destruct Hcall as (Hc1 & Hc2 & Hc3).
    split; [rewrite Hes, Ht; by rewrite <- !app_assoc|].
    rewrite !List.filter_app, Hm1, Hm2, Hc, Hk. cbn [List.filter].
    rewrite Hc1, Hc2. split; [|split].
    + destruct (badge env); reflexivity.
    + destruct (badge env); reflexivity.
    + intros Hn. rewrite (Hnat Hn). apply Forall_app. split.
      { destruct (badge env); repeat constructor. }
      cbn [app]. constructor; [exact Hc3 | by apply Hp].
Qed.


(** *** A request that gets its lock and its buffer *)

Lemma filter_logs (Q p : Effect -> bool) s s' :
  (forall e, Q e = true -> p e = false) -> logs Q s s' ->
  List.filter p (log s') = List.filter p (log s).
Proof.
  intros HQ (es & -> & F). rewrite List.filter_app.
  replace (List.filter p es) with (@nil Effect); [by rewrite app_nil_r|].
  induction F as [|e es He _ IH]; [done|]. simpl. by rewrite (HQ e He).
Qed.

Lemma logs_before env req s0 : logs of_start s0 (before_capture env req s0).
Proof.
  unfold before_capture, allocate.
  destruct (request_one_canvas env req).
  - eapply logs_trans; [|eapply logs_impl; [|apply logs_prepare]].
    + logs_chain.
    + intros e He. destruct e; try done; simpl in *; rewrite He; apply orb_true_r.
  - destruct (_ && _); [|logs_chain].
    eapply logs_trans; [|eapply logs_impl; [|apply logs_prepare]].
    + logs_chain.
    + intros e He. destruct e; try done; simpl in *; rewrite He; apply orb_true_r.
Qed.

Lemma allocates_next env req s :
  allocates env req -> exists s', allocate env req s = Next s'.
Proof.
  unfold allocates, allocate. intros [-> | [Hlt Hok]]; [by eexists|].
  destruct (request_one_canvas env req); [by eexists|].
  apply Z.ltb_lt in Hlt. rewrite Hlt, Hok. by eexists.
Qed.

(** The state in which such a request ends. *)
Lemma request_succeeds env req clk tbl ts :
  (lock_tab env (init tbl (t_lock clk))).1 = true ->
  allocates env req -> request_tiles env req = Some ts ->
  TakeScreenshot env req clk tbl
  = Some (finally_block env clk
            (finish env req clk
               (capture_all env req (tile_count env req) ts
                  (before_capture env req (lock_tab env (init tbl (t_lock clk))).2)))).
Proof.
  intros Hgot Halloc Hts. unfold TakeScreenshot, try_block, before_capture.
  destruct (lock_tab env (init tbl (t_lock clk))) as [got s0].
  cbn [fst snd] in *. subst got. cbn [negb].
  destruct (allocates_next env req (emit EDisable s0) Halloc) as (s1 & ->).
  by rewrite Hts.
Qed.


Ltac by_cases_on_call :=
  let e := fresh "e" in let He := fresh "He" in
  intros e He; destruct e; simpl in He |- *;
  repeat case_match; congruence.

(** The captures of a request follow the plan. *)
Lemma request_captures env req clk ts s0 :
  log s0 = [] ->
  List.filter is_capture
    (log (finally_block env clk
            (finish env req clk
               (capture_all env req (tile_count env req) ts
                  (before_capture env req s0)))))
  = capture_call env req <$> ts.
Proof.
  intros H0.
  rewrite (filter_logs of_finally is_capture _ _ ltac:(by_cases_on_call) (logs_finally _ _ _)).
  rewrite (filter_logs of_delivery is_capture _ _ ltac:(by_cases_on_call) (logs_finish _ _ _ _)).
  rewrite (filter_logs of_restore is_capture _ _ ltac:(by_cases_on_call) (logs_restore _ _)).
  destruct (capture_all_log env req (tile_count env req) ts (before_capture env req s0))
    as (es & -> & _ & Hk & _).
  rewrite List.filter_app, Hk.
  rewrite (filter_logs of_start is_capture _ _ ltac:(by_cases_on_call) (logs_before _ _ _)).
  by rewrite H0.
Qed.



(** X11.  The captures of a request that gets its lock and its buffer are those
    of its tiles, in the order of the plan: under native capture the
    rectangle of each tile in the page, otherwise one capture of the
    visible part of the tab per tile. *)
Theorem captures_follow_plan env req clk tbl ts :
  (lock_tab env (init tbl (t_lock clk))).1 = true ->
  allocates env req ->
  request_tiles env req = Some ts ->
  exists s,
    TakeScreenshot env req clk tbl = Some s /\
    List.filter is_capture (log s) = capture_call env req <$> ts.
Proof.
  intros Hgot Halloc Hts. eexists. split; [by apply request_succeeds|].
  apply request_captures. by rewrite (proj1 (lock_tab_quiet _ _)).
Qed.

(** The theorem at a 5000 x 100 region at scale 1. *)
Lemma captures_follow_plan_witness :
  exists s,
    TakeScreenshot sample_env (sample_request 5000 100 1) sample_clock ∅ = Some s /\
    List.filter is_capture (log s)
    = capture_call sample_env (sample_request 5000 100 1)
        <$> [mkTile 0 0 4095 100; mkTile 4095 0 905 100].
Proof.
  apply (captures_follow_plan sample_env (sample_request 5000 100 1) sample_clock ∅).
  - vm_compute. reflexivity.
  - left. vm_compute. reflexivity.
  - vm_compute. reflexivity.
Defined.



(** *** The number of tiles *)

Lemma ceil_div_step (a b : Z) : 0 < b -> ceil_div (a - b) b = ceil_div a b - 1.
Proof.
  intros Hb. unfold ceil_div.
  replace (- (a - b)) with (- a + 1 * b) by lia.
  rewrite Z.div_add by lia. lia.
Qed.

Lemma ceil_div_pos (a b : Z) : 0 < a -> 0 < b -> 0 < ceil_div a b.
Proof.
  intros Ha Hb. unfold ceil_div.
  assert (- a / b < 0) by (apply Z.div_lt_upper_bound; lia). lia.
Qed.

Lemma ceil_div_nonpos (a b : Z) : a <= 0 -> 0 < b -> ceil_div a b <= 0.
Proof.
  intros Ha Hb. unfold ceil_div.
  assert (0 <= - a / b) by (apply Z.div_pos; lia). lia.
Qed.

Lemma length_tiles_row (fuel : nat) (rw mw y h x : Z) (ts : list Tile) :
  0 < mw -> tiles_row fuel rw mw y h x = Some ts ->
  Z.of_nat (length ts) = Z.max 0 (ceil_div (rw - x) mw).
Proof.
  intros Hmw. revert x ts. induction fuel as [|fuel IH]; intros x ts; simpl.
  - destruct (Z.ltb_spec x rw); [discriminate|]. intros [= <-].
    pose proof (ceil_div_nonpos (rw - x) mw). simpl. lia.
  - destruct (Z.ltb_spec x rw) as [Hlt|Hge].
    + destruct (tiles_row fuel rw mw y h (x + mw)) as [rest|] eqn:Hrest; [|discriminate].
      intros [= <-]. apply IH in Hrest.
      replace (rw - (x + mw)) with (rw - x - mw) in Hrest by lia.
      rewrite ceil_div_step in Hrest by lia.
      pose proof (ceil_div_pos (rw - x) mw). rewrite length_cons. lia.
    + intros [= <-]. pose proof (ceil_div_nonpos (rw - x) mw). simpl. lia.
Qed.

Lemma length_tiles_rows (fuel : nat) (rw rh mw mh y : Z) (ts : list Tile) :
  0 < rw -> 0 < mw -> 0 < mh ->
  tiles_rows fuel rw rh mw mh y = Some ts ->
  Z.of_nat (length ts) = ceil_div rw mw * Z.max 0 (ceil_div (rh - y) mh).
Proof.
  intros Hrw Hmw Hmh. revert y ts. induction fuel as [|fuel IH]; intros y ts; simpl.
  - destruct (Z.ltb_spec y rh); [discriminate|]. intros [= <-].
    pose proof (ceil_div_nonpos (rh - y) mh). simpl. lia.
  - destruct (Z.ltb_spec y rh) as [Hlt|Hge].
    + destruct (tiles_row _ rw mw y _ 0) as [row|] eqn:Hrow; [|discriminate].
      destruct (tiles_rows fuel rw rh mw mh (y + mh)) as [rest|] eqn:Hrest; [|discriminate].
      intros [= <-]. apply IH in Hrest. apply length_tiles_row in Hrow; [|done].
      replace (rh - (y + mh)) with (rh - y - mh) in Hrest by lia.
      rewrite ceil_div_step in Hrest by lia.
      rewrite Z.sub_0_r in Hrow.
      pose proof (ceil_div_pos (rh - y) mh).
      pose proof (ceil_div_pos rw mw).
      rewrite length_app. nia.
    + intros [= <-]. pose proof (ceil_div_nonpos (rh - y) mh). simpl. lia.
Qed.

Lemma length_plan (rw rh mw mh : Z) (ts : list Tile) :
  0 < rw -> 0 < rh -> 0 < mw -> 0 < mh ->
  plan rw rh mw mh = Some ts ->
  Z.of_nat (length ts) = ceil_div rw mw * ceil_div rh mh.
Proof.
  intros Hrw Hrh Hmw Hmh Hts. unfold plan in Hts.
  apply length_tiles_rows in Hts; [|done..].
  rewrite Z.sub_0_r in Hts. pose proof (ceil_div_pos rh mh). lia.
Qed.

(** X13.  For a region and per-tile maxima of positive size the planner loops
    end after [Math.ceil(rw / mw) * Math.ceil(rh / mh)] tiles, the number
    the badge counter starts from. *)
Theorem plan_length (rw rh mw mh : Z) :
  0 < rw -> 0 < rh -> 0 < mw -> 0 < mh ->
  exists ts, plan rw rh mw mh = Some ts /\
             Z.of_nat (length ts) = ceil_div rw mw * ceil_div rh mh.
Proof.
  intros Hrw Hrh Hmw Hmh.
  destruct (PlannerFacts.plan_grid rw rh mw mh) as (ts & Hts & _); [done..|].
  exists ts. split; [exact Hts | by apply length_plan].
Qed.

(** The theorem at a 5000 x 3000 region cut into tiles of at most
    1280 x 720. *)
Lemma plan_length_witness :
  exists ts, plan 5000 3000 1280 720 = Some ts /\
             Z.of_nat (length ts) = ceil_div 5000 1280 * ceil_div 3000 720.
Proof. apply (plan_length 5000 3000 1280 720); lia. Defined.

Lemma countdown_full (k : nat) :
  countdown (Z.of_nat k) k
  = (fun n => ESetBadgeText (text_count n)) <$> reverse (seqZ 1 (Z.of_nat k)).
Proof.
  induction k as [|k IH]; [reflexivity|].
  rewrite seqZ_S, reverse_snoc, fmap_cons. cbn [countdown].
  replace (Z.of_nat (S k) - 1) with (Z.of_nat k) by lia.
  rewrite IH. f_equal. f_equal. f_equal. lia.
Qed.

Lemma request_counts env req clk ts s0 :
  log s0 = [] ->
  List.filter is_count
    (log (finally_block env clk
            (finish env req clk
               (capture_all env req (tile_count env req) ts
                  (before_capture env req s0)))))
  = if badge env then countdown (tile_count env req) (length ts) else [].
Proof.
  intros H0.
  rewrite (filter_logs of_finally is_count _ _ ltac:(by_cases_on_call) (logs_finally _ _ _)).
  rewrite (filter_logs of_delivery is_count _ _ ltac:(by_cases_on_call) (logs_finish _ _ _ _)).
  rewrite (filter_logs of_restore is_count _ _ ltac:(by_cases_on_call) (logs_restore _ _)).
  destruct (capture_all_log env req (tile_count env req) ts (before_capture env req s0))
    as (es & -> & Hc & _).
  rewrite List.filter_app, Hc.
  rewrite (filter_logs of_start is_count _ _ ltac:(by_cases_on_call) (logs_before _ _ _)).
  by rewrite H0.
Qed.

(** X14.  With the badge API, a request that gets its lock and its buffer shows
    the numbers [count], [count - 1], ..., [1] on the badge, one before the
    capture of each tile: the counter ends at the last tile. *)
Theorem badge_counts_down env req clk tbl :
  (lock_tab env (init tbl (t_lock clk))).1 = true ->
  allocates env req ->
  badge env = true ->
  0 < width req -> 0 < height req ->
  0 < fst (request_max env req) -> 0 < snd (request_max env req) ->
  exists s,
    TakeScreenshot env req clk tbl = Some s /\
    List.filter is_count (log s)
    = (fun n => ESetBadgeText (text_count n))
        <$> reverse (seqZ 1 (tile_count env req)).
Proof.
  intros Hgot Halloc Hbadge Hrw Hrh Hmw Hmh.
  destruct (PlannerFacts.plan_grid _ _ _ _ Hrw Hrh Hmw Hmh) as (ts & Hts & _).
  pose proof (length_plan _ _ _ _ _ Hrw Hrh Hmw Hmh Hts) as Hlen.
  fold (request_tiles env req) in Hts. fold (tile_count env req) in Hlen.
  eexists. split; [by apply request_succeeds|].
  rewrite request_counts by (by rewrite (proj1 (lock_tab_quiet _ _))).
  rewrite Hbadge, <- Hlen. apply countdown_full.
Qed.

(** The theorem at a 5000 x 100 region at scale 1. *)
Lemma badge_counts_down_witness :
  exists s,
    TakeScreenshot sample_env (sample_request 5000 100 1) sample_clock ∅ = Some s /\
    List.filter is_count (log s)
    = (fun n => ESetBadgeText (text_count n))
        <$> reverse (seqZ 1 (tile_count sample_env (sample_request 5000 100 1))).
Proof.
  apply (badge_counts_down sample_env (sample_request 5000 100 1) sample_clock ∅).
  - vm_compute. reflexivity.
  - left. vm_compute. reflexivity.
  - reflexivity.
  - vm_compute. reflexivity.
  - vm_compute. reflexivity.
  - vm_compute. reflexivity.
  - vm_compute. reflexivity.
Defined.


(** *** Undoing the changes to the page *)

Lemma restore_capture_tile env req n t s :
  restore (capture_tile env req n t s) = restore s.
Proof.
  unfold capture_tile, updateScrollPosition_css, updateScrollPosition_js.
  split_ifs; reflexivity.
Qed.

Lemma restore_capture_all env req n ts s :
  restore (capture_all env req n ts s) = restore s.
Proof.
  revert n s. induction ts as [|t ts IH]; intros n s; [reflexivity|].
  cbn [capture_all]. by rewrite IH, restore_capture_tile.
Qed.

Lemma restore_before env req s0 :
  restore s0 = RestoreNothing -> allocates env req ->
  restore (before_capture env req s0) = restore_of env req.
Proof.
  intros H0 Halloc. unfold before_capture.
  destruct (allocates_next env req (emit EDisable s0) Halloc) as (s1 & Hs1).
  rewrite Hs1.
  assert (H1 : restore s1 = RestoreNothing).
  { revert Hs1. unfold allocate. split_ifs; intros [= <-]; exact H0. }
  unfold prepare, setup_compensator, restore_of, use_css_croll, use_js_scroll.
  destruct (use_native env req), (region_full req), (badge env); cbn; by rewrite ?H1.
Qed.

Ltac by_membership :=
  repeat match goal with
         | |- Forall _ (_ ++ _) => apply Forall_app; split
         | |- Forall _ [] => constructor
         | |- Forall _ (_ :: _) => constructor
         | |- _ /\ _ => split
         | |- forall _, _ => intro
         | H : _ ∈ _ ++ _ |- _ => apply elem_of_app in H; destruct H
         | H : _ ∈ [] |- _ => by apply elem_of_nil in H
         | H : _ ∈ _ :: _ |- _ => apply elem_of_cons in H; destruct H
         | H : EInsertCSS _ = _ |- _ => first [discriminate H | injection H as ->]
         end;
  rewrite ?elem_of_app, ?list_elem_of_singleton; auto.

Lemma undoable_capture_tile env req n t s :
  restore s = restore_of env req -> undoable s ->
  undoable (capture_tile env req n t s).
Proof.
  unfold restore_of, undoable. rewrite restore_capture_tile.
  unfold capture_tile, use_css_croll.
  destruct (use_native env req) eqn:Hn; cbn [negb].
  - destruct (region_full req); intros -> H;
      destruct (badge env), (BROWSER_VERSION_MAJOR env >=? 82);
      autorewrite with st; by_membership.
  - intros -> [H1 H2].
    unfold updateScrollPosition_css, resetScrollPosition, applyCssScroll.
    split_ifs; cbn [snd]; autorewrite with st; cbn [tasks emit emits set_tasks set_is_first];
      by_membership.
Qed.

Lemma undoable_capture_all env req n ts s :
  restore s = restore_of env req -> undoable s ->
  undoable (capture_all env req n ts s).
Proof.
  revert n s. induction ts as [|t ts IH]; intros n s Hr Hu; [exact Hu|].
  cbn [capture_all]. apply IH; [by rewrite restore_capture_tile|].
  by apply undoable_capture_tile.
Qed.

Lemma undoable_before env req s0 :
  log s0 = [] -> restore s0 = RestoreNothing -> allocates env req ->
  undoable (before_capture env req s0).
Proof.
  intros Hl H0 Halloc. unfold undoable.
  rewrite (restore_before env req s0 H0 Halloc).
  unfold before_capture.
  destruct (allocates_next env req (emit EDisable s0) Halloc) as (s1 & Hs1).
  rewrite Hs1.
  assert (H1 : Forall (fun e => is_page_mutation e = false) (log s1)).
  { revert Hs1. unfold allocate. split_ifs; intros [= <-];
      autorewrite with st; rewrite Hl; repeat constructor. }
  assert (H2 : forall c, EInsertCSS c ∈ log s1 -> False).
  { intros c Hc. rewrite Forall_forall in H1. by specialize (H1 _ Hc). }
  unfold prepare, setup_compensator, restore_of, use_css_croll, use_js_scroll,
    resetScrollPosition.
  destruct (use_native env req), (region_full req), (badge env);
    cbn [negb andb orb]; autorewrite with st;
    cbn [tasks emit emits set_tasks set_is_first set_restore];
    by_membership; try (exfalso; eauto); by_membership.
Qed.

(** What a call of [restoreScrollPosition] does to a page whose changes
    are known to the closure. *)
Lemma restore_undoes req s :
  undoable s ->
  exists rest,
    log (restoreScrollPosition req s) = log s ++ rest /\
    Forall (fun e => of_restore e = true) rest /\
    (forall c, EInsertCSS c ∈ log s -> ERemoveCSS c ∈ rest) /\
    match restore s with
    | RestoreNothing =>
        rest = [] /\ Forall (fun e => is_page_mutation e = false) (log s)
    | _ => exists rest', rest = rest' ++ [EExecuteScript (js_scroll_restore req)]
    end.
Proof.
  unfold undoable, restoreScrollPosition. destruct (restore s).
  - intros H. exists []. rewrite app_nil_r. split; [done|]. split; [done|].
    split; [|done]. intros c Hc. rewrite Forall_forall in H. by specialize (H _ Hc).
  - intros [H1 H2]. eexists. split; [autorewrite with st; by rewrite <- app_assoc|].
    cbn [tasks set_restore]. split; [|split].
    + apply Forall_app. split; [|by repeat constructor].
      clear H1 H2. induction (tasks s); constructor; auto.
    + intros c Hc. apply elem_of_app. left. apply list_elem_of_fmap.
      exists c. split; [done | by apply H2].
    + by eexists.
  - done.
  - intros H. eexists. split; [autorewrite with st; by rewrite <- app_assoc|].
    split; [by repeat constructor|]. split.
    + intros c Hc. rewrite (H c Hc). apply elem_of_cons. by left.
    + by exists [ERemoveCSS css_reset].
Qed.

(** The log of a request that gets its lock and its buffer, cut where the
    capture jobs are done. *)
Lemma request_log env req clk ts s0 :
  log s0 = [] -> restore s0 = RestoreNothing -> allocates env req ->
  exists before rest post,
    log (finally_block env clk
           (finish env req clk
              (capture_all env req (tile_count env req) ts
                 (before_capture env req s0))))
    = before ++ rest ++ post /\
    Forall (fun e => of_restore e = true) rest /\
    Forall (fun e => of_delivery e || of_finally e = true) post /\
    (forall c, EInsertCSS c ∈ before -> ERemoveCSS c ∈ rest) /\
    match restore_of env req with
    | RestoreNothing =>
        rest = [] /\ Forall (fun e => is_page_mutation e = false) before
    | _ => exists rest', rest = rest' ++ [EExecuteScript (js_scroll_restore req)]
    end.
Proof.
  intros Hl H0 Halloc.
  set (s1 := before_capture env req s0).
  set (s2 := capture_all env req (tile_count env req) ts s1).
  assert (Hr2 : restore s2 = restore_of env req).
  { subst s2. rewrite restore_capture_all. by apply restore_before. }
  assert (Hu2 : undoable s2).
  { apply undoable_capture_all; [by apply restore_before | by apply undoable_before]. }
  destruct (restore_undoes req s2 Hu2) as (rest & Hrest & Hof & Hrm & Hlast).
  rewrite Hr2 in Hlast.
  assert (Hpost : logs (fun e => of_delivery e || of_finally e)
                    (restoreScrollPosition req s2)
                    (finally_block env clk (finish env req clk s2))).
  { apply (logs_trans _ _ (finish env req clk s2)).
    - eapply logs_impl; [|apply logs_finish]. by intros e ->.
    - eapply logs_impl; [|apply logs_finally]. intros e ->. apply orb_true_r. }
  destruct Hpost as (post & Hpost & Hpof).
  exists (log s2), rest, post. rewrite Hpost, Hrest, <- app_assoc. done.
Qed.

Lemma split_before {A : Type} (x : A) (l1 l2 a b : list A) :
  l1 ++ x :: l2 = a ++ b -> x ∉ b -> x ∈ a /\ exists k, l2 = k ++ b.
Proof.
  revert l1. induction a as [|y a IH]; intros l1 H Hx.
  - exfalso. apply Hx. simpl in H. rewrite <- H.
    apply elem_of_app. right. by left.
  - destruct l1 as [|z l1]; simpl in H; injection H as -> H.
    + split; [by left | by exists a].
    + destruct (IH l1 H Hx) as [Hin Hk]. split; [by right | exact Hk].
Qed.

(** X15.  Every style sheet that a request which gets its lock and its buffer
    inserts into the page is removed again later in the request. *)
Theorem style_sheets_removed env req clk tbl ts :
  (lock_tab env (init tbl (t_lock clk))).1 = true ->
  allocates env req ->
  request_tiles env req = Some ts ->
  exists s,
    TakeScreenshot env req clk tbl = Some s /\
    forall l1 c l2, log s = l1 ++ EInsertCSS c :: l2 -> ERemoveCSS c ∈ l2.
Proof.
  intros Hgot Halloc Hts. eexists. split; [by apply request_succeeds|].
  pose proof (lock_tab_quiet env (init tbl (t_lock clk))) as [Hl0 _].
  destruct (request_log env req clk ts (lock_tab env (init tbl (t_lock clk))).2)
    as (before & rest & post & -> & Hof & Hpof & Hrm & _); [done | | done |].
  { unfold lock_tab. by destruct (Mutex.lock _ _ _ _ _ _) as [[got t] tbl']. }
  intros l1 c l2 Heq. symmetry in Heq.
  apply split_before in Heq as [Hin [k ->]].
  - rewrite !elem_of_app. right. left. by apply Hrm.
  - intros [Hc|Hc]%elem_of_app.
    + rewrite Forall_forall in Hof. by specialize (Hof _ Hc).
    + rewrite Forall_forall in Hpof. by specialize (Hpof _ Hc).
Qed.


(** The theorem at a full page of 1280 x 2000 pixels on Firefox 60,
    scrolled down by 100 pixels. *)
Lemma style_sheets_removed_witness :
  exists s,
    TakeScreenshot legacy_env (page_request 1280 2000 100) sample_clock ∅ = Some s /\
    forall l1 c l2, log s = l1 ++ EInsertCSS c :: l2 -> ERemoveCSS c ∈ l2.
Proof.
  apply (style_sheets_removed legacy_env (page_request 1280 2000 100) sample_clock ∅
           [mkTile 0 0 1280 720; mkTile 0 720 1280 720; mkTile 0 1440 1280 560]).
  - vm_compute. reflexivity.
  - left. vm_compute. reflexivity.
  - vm_compute. reflexivity.
Defined.

Example legacy_page_log :
  log <$> TakeScreenshot legacy_env (page_request 1280 2000 100) sample_clock ∅
  = Some [EDisable; ECreateCanvas 1280 2000; EExecuteScript read_style;
          ESetTitle badge_capturing; ESetBadgeBackgroundColor red;
          ESetBadgeText (text_count 3);
          EInsertCSS css_reset; EExecuteScript (scrollTo 0 0);
          EInsertCSS (css_shift 0 0); ECaptureTab None;
          ESetBadgeText (text_count 2);
          EInsertCSS (css_shift 0 720); ECaptureTab None;
          ESetBadgeText (text_count 1);
          EInsertCSS (css_shift 0 1440); ECaptureTab None;
          ERemoveCSS css_reset; ERemoveCSS (css_shift 0 0);
          ERemoveCSS (css_shift 0 720); ERemoveCSS (css_shift 0 1440);
          EExecuteScript (scrollTo 0 100);
          ESetTitle badge_saving; ESetBadgeText text_dots;
          ESetBadgeBackgroundColor green; EEnable; EToDataURL;
          EDownload false; ERevokeObjectURL; ERevokeObjectURL;
          ESetTitle title_empty; ESetBadgeText text_empty;
          ESetBadgeBackgroundColor color_null; EEnable].
Proof. vm_compute. reflexivity. Qed.

Lemma filter_none (p : Effect -> bool) (es : list Effect) :
  Forall (fun e => p e = false) es -> List.filter p es = [].
Proof. induction 1 as [|e es He _ IH]; [done|]. simpl. by rewrite He. Qed.

Lemma request_page_changes env req clk ts s0 :
  log s0 = [] -> restore s0 = RestoreNothing -> allocates env req ->
  last (List.filter is_page_mutation
          (log (finally_block env clk
                  (finish env req clk
                     (capture_all env req (tile_count env req) ts
                        (before_capture env req s0))))))
  = if use_native env req && negb (region_full req) then None
    else Some (EExecuteScript (js_scroll_restore req)).
Proof.
  intros Hl H0 Halloc.
  destruct (request_log env req clk ts s0 Hl H0 Halloc)
    as (before & rest & post & -> & _ & Hpof & _ & Hlast).
  assert (Hpost : List.filter is_page_mutation post = []).
  { apply filter_none. eapply Forall_impl; [exact Hpof|].
    intros e He. destruct e; simpl in He |- *; repeat case_match; congruence. }
  rewrite !List.filter_app, Hpost, app_nil_r.
  unfold restore_of in Hlast.
  destruct (use_native env req), (region_full req); cbn [andb negb];
    cbv iota in Hlast;
    try (destruct Hlast as [rest' ->];
         rewrite List.filter_app; unfold js_scroll_restore; cbn [List.filter is_page_mutation];
         by rewrite app_assoc, last_snoc).
  destruct Hlast as [-> Hb]. by rewrite (filter_none _ _ Hb).
Qed.

(** X16.  A request that gets its lock and its buffer leaves the page where it
    was: under native capture of a part of the page it does not touch the
    page at all, and in every other case its last change to the page is
    the scroll to [(sx + spx, sy + spy)]. *)
Theorem scroll_position_restored env req clk tbl ts :
  (lock_tab env (init tbl (t_lock clk))).1 = true ->
  allocates env req ->
  request_tiles env req = Some ts ->
  exists s,
    TakeScreenshot env req clk tbl = Some s /\
    (use_native env req && negb (region_full req) = true ->
     List.filter is_page_mutation (log s) = []) /\
    (use_native env req && negb (region_full req) = false ->
     last (List.filter is_page_mutation (log s))
     = Some (EExecuteScript (scrollTo (sx req + spx req) (sy req + spy req)))).
Proof.
  intros Hgot Halloc Hts. eexists. split; [by apply request_succeeds|].
  pose proof (lock_tab_quiet env (init tbl (t_lock clk))) as [Hl0 _].
  assert (Hr0 : restore (lock_tab env (init tbl (t_lock clk))).2 = RestoreNothing).
  { unfold lock_tab. by destruct (Mutex.lock _ _ _ _ _ _) as [[got t] tbl']. }
  pose proof (request_page_changes env req clk ts _ Hl0 Hr0 Halloc) as H.
  split; intros Hb; rewrite Hb in H; [|exact H].
  by apply last_None in H.
Qed.

(** The theorem at a full page of 1280 x 2000 pixels on Firefox 60,
    scrolled down by 100 pixels. *)
Lemma scroll_position_restored_witness :
  exists s,
    TakeScreenshot legacy_env (page_request 1280 2000 100) sample_clock ∅ = Some s /\
    (use_native legacy_env (page_request 1280 2000 100)
     && negb (region_full (page_request 1280 2000 100)) = true ->
     List.filter is_page_mutation (log s) = []) /\
    (use_native legacy_env (page_request 1280 2000 100)
     && negb (region_full (page_request 1280 2000 100)) = false ->
     last (List.filter is_page_mutation (log s))
     = Some (EExecuteScript
               (scrollTo (sx (page_request 1280 2000 100) + spx (page_request 1280 2000 100))
                         (sy (page_request 1280 2000 100) + spy (page_request 1280 2000 100))))).
Proof.
  apply (scroll_position_restored legacy_env (page_request 1280 2000 100) sample_clock ∅
           [mkTile 0 0 1280 720; mkTile 0 720 1280 720; mkTile 0 1440 1280 560]).
  - vm_compute. reflexivity.
  - left. vm_compute. reflexivity.
  - vm_compute. reflexivity.
Defined.


(** *** The part of a viewport capture that is kept *)

Lemma offsets_css (req : Request) (x y w h : Z) (s : St) :
  w <= vw req -> h <= vh req ->
  0 <= pos_x (updateScrollPosition_css req x y w h s).1 /\
  pos_x (updateScrollPosition_css req x y w h s).1 + w <= vw req /\
  0 <= pos_y (updateScrollPosition_css req x y w h s).1 /\
  pos_y (updateScrollPosition_css req x y w h s).1 + h <= vh req.
Proof.
  intros Hw Hh. unfold updateScrollPosition_css.
  destruct (is_first s); [|cbn; split_ifs; lia].
  destruct (_ && _) eqn:Hview; [|cbn; split_ifs; lia].
  apply andb_true_iff in Hview as [Hvx Hvy]. cbn [fst pos_x pos_y].
  destruct (dir_x req >? 0), (dir_y req >? 0);
    apply andb_true_iff in Hvx as [Hx1 Hx2]; apply andb_true_iff in Hvy as [Hy1 Hy2];
    lia.
Qed.

Lemma offsets_js (req : Request) (x y w h : Z) (s : St) :
  w <= vw req -> h <= vh req ->
  0 <= pos_x (updateScrollPosition_js req x y w h s).1 /\
  pos_x (updateScrollPosition_js req x y w h s).1 + w <= vw req /\
  0 <= pos_y (updateScrollPosition_js req x y w h s).1 /\
  pos_y (updateScrollPosition_js req x y w h s).1 + h <= vh req.
Proof.
  intros Hw Hh. unfold updateScrollPosition_js.
  destruct (is_first s); [|cbn; split_ifs; lia].
  destruct (_ && _) eqn:Hview; [|cbn; split_ifs; lia].
  apply andb_true_iff in Hview as [Hvx Hvy]. cbn [fst pos_x pos_y].
  destruct (dir_x req >? 0), (dir_y req >? 0);
    apply andb_true_iff in Hvx as [Hx1 Hx2]; apply andb_true_iff in Hvy as [Hy1 Hy2];
    lia.
Qed.

(** X17.  For a tile no larger than the viewport, the offset that either
    strategy of [updateScrollPosition] returns keeps the rectangle
    [(pos.x, pos.y, w, h)] inside the viewport, on the first tile and on
    every later one. *)
Theorem offset_within_viewport (req : Request) (x y w h : Z) (s : St) :
  w <= vw req -> h <= vh req ->
  (0 <= pos_x (updateScrollPosition_css req x y w h s).1 /\
   pos_x (updateScrollPosition_css req x y w h s).1 + w <= vw req /\
   0 <= pos_y (updateScrollPosition_css req x y w h s).1 /\
   pos_y (updateScrollPosition_css req x y w h s).1 + h <= vh req) /\
  (0 <= pos_x (updateScrollPosition_js req x y w h s).1 /\
   pos_x (updateScrollPosition_js req x y w h s).1 + w <= vw req /\
   0 <= pos_y (updateScrollPosition_js req x y w h s).1 /\
   pos_y (updateScrollPosition_js req x y w h s).1 + h <= vh req).
Proof. intros Hw Hh. split; [by apply offsets_css | by apply offsets_js]. Qed.

(** The theorem for a tile of 1280 x 560 pixels at (0, 1440), not the
    first one, of a page that overflows to the left and to the top. *)
Lemma offset_within_viewport_witness :
  (0 <= pos_x (updateScrollPosition_css
                 (mkRequest true png 0 0 1280 2000 1280 720 1280 2000 0 0 0 0 (-1) (-1) 1)
                 0 1440 1280 560 (set_is_first false (init ∅ 0))).1 /\
   pos_x (updateScrollPosition_css
            (mkRequest true png 0 0 1280 2000 1280 720 1280 2000 0 0 0 0 (-1) (-1) 1)
            0 1440 1280 560 (set_is_first false (init ∅ 0))).1 + 1280 <= 1280 /\
   0 <= pos_y (updateScrollPosition_css
                 (mkRequest true png 0 0 1280 2000 1280 720 1280 2000 0 0 0 0 (-1) (-1) 1)
                 0 1440 1280 560 (set_is_first false (init ∅ 0))).1 /\
   pos_y (updateScrollPosition_css
            (mkRequest true png 0 0 1280 2000 1280 720 1280 2000 0 0 0 0 (-1) (-1) 1)
            0 1440 1280 560 (set_is_first false (init ∅ 0))).1 + 560 <= 720) /\
  (0 <= pos_x (updateScrollPosition_js
                 (mkRequest true png 0 0 1280 2000 1280 720 1280 2000 0 0 0 0 (-1) (-1) 1)
                 0 1440 1280 560 (set_is_first false (init ∅ 0))).1 /\
   pos_x (updateScrollPosition_js
            (mkRequest true png 0 0 1280 2000 1280 720 1280 2000 0 0 0 0 (-1) (-1) 1)
            0 1440 1280 560 (set_is_first false (init ∅ 0))).1 + 1280 <= 1280 /\
   0 <= pos_y (updateScrollPosition_js
                 (mkRequest true png 0 0 1280 2000 1280 720 1280 2000 0 0 0 0 (-1) (-1) 1)
                 0 1440 1280 560 (set_is_first false (init ∅ 0))).1 /\
   pos_y (updateScrollPosition_js
            (mkRequest true png 0 0 1280 2000 1280 720 1280 2000 0 0 0 0 (-1) (-1) 1)
            0 1440 1280 560 (set_is_first false (init ∅ 0))).1 + 560 <= 720).
Proof.
  apply (offset_within_viewport
           (mkRequest true png 0 0 1280 2000 1280 720 1280 2000 0 0 0 0 (-1) (-1) 1)
           0 1440 1280 560 (set_is_first false (init ∅ 0))); simpl; lia.
Defined.

(** X18.  Without native capture every tile of a request fits into the viewport,
    and so does the rectangle that is cut out of its capture. *)
Theorem viewport_tiles_fit env req ts t s :
  use_native env req = false ->
  request_tiles env req = Some ts -> t ∈ ts ->
  0 < tile_w t <= vw req /\ 0 < tile_h t <= vh req /\
  0 <= pos_x (updateScrollPosition_css req (left req + tile_x t) (top req + tile_y t)
                (tile_w t) (tile_h t) s).1 /\
  pos_x (updateScrollPosition_css req (left req + tile_x t) (top req + tile_y t)
           (tile_w t) (tile_h t) s).1 + tile_w t <= vw req /\
  0 <= pos_y (updateScrollPosition_css req (left req + tile_x t) (top req + tile_y t)
                (tile_w t) (tile_h t) s).1 /\
  pos_y (updateScrollPosition_css req (left req + tile_x t) (top req + tile_y t)
           (tile_w t) (tile_h t) s).1 + tile_h t <= vh req.
Proof.
  intros Hn Hts Ht. unfold request_tiles, plan in Hts.
  apply PlannerFacts.tiles_rows_bounds in Hts. rewrite Forall_forall in Hts.
  destruct (Hts t Ht) as [Hw Hh].
  unfold request_max, tile_max in Hw, Hh. rewrite Hn in Hw, Hh. cbn [fst snd] in Hw, Hh.
  split; [lia|]. split; [lia|]. apply offsets_css; lia.
Qed.

(** The theorem on the last tile of a full page of 1280 x 2000 pixels on
    Firefox 60. *)
Lemma viewport_tiles_fit_witness :
  0 < tile_w (mkTile 0 1440 1280 560) <= vw (page_request 1280 2000 100) /\
  0 < tile_h (mkTile 0 1440 1280 560) <= vh (page_request 1280 2000 100) /\
  0 <= pos_x (updateScrollPosition_css (page_request 1280 2000 100)
                (left (page_request 1280 2000 100) + tile_x (mkTile 0 1440 1280 560))
                (top (page_request 1280 2000 100) + tile_y (mkTile 0 1440 1280 560))
                (tile_w (mkTile 0 1440 1280 560)) (tile_h (mkTile 0 1440 1280 560))
                (init ∅ 0)).1 /\
  pos_x (updateScrollPosition_css (page_request 1280 2000 100)
           (left (page_request 1280 2000 100) + tile_x (mkTile 0 1440 1280 560))
           (top (page_request 1280 2000 100) + tile_y (mkTile 0 1440 1280 560))
           (tile_w (mkTile 0 1440 1280 560)) (tile_h (mkTile 0 1440 1280 560))
           (init ∅ 0)).1 + tile_w (mkTile 0 1440 1280 560)
  <= vw (page_request 1280 2000 100) /\
  0 <= pos_y (updateScrollPosition_css (page_request 1280 2000 100)
                (left (page_request 1280 2000 100) + tile_x (mkTile 0 1440 1280 560))
                (top (page_request 1280 2000 100) + tile_y (mkTile 0 1440 1280 560))
                (tile_w (mkTile 0 1440 1280 560)) (tile_h (mkTile 0 1440 1280 560))
                (init ∅ 0)).1 /\
  pos_y (updateScrollPosition_css (page_request 1280 2000 100)
           (left (page_request 1280 2000 100) + tile_x (mkTile 0 1440 1280 560))
           (top (page_request 1280 2000 100) + tile_y (mkTile 0 1440 1280 560))
           (tile_w (mkTile 0 1440 1280 560)) (tile_h (mkTile 0 1440 1280 560))
           (init ∅ 0)).1 + tile_h (mkTile 0 1440 1280 560)
  <= vh (page_request 1280 2000 100).
Proof.
  apply (viewport_tiles_fit legacy_env (page_request 1280 2000 100)
           [mkTile 0 0 1280 720; mkTile 0 720 1280 720; mkTile 0 1440 1280 560]).
  - vm_compute. reflexivity.
  - vm_compute. reflexivity.
  - right. right. left.
Defined.

(** *** Regions of one tile *)

Lemma tiles_row_done (fuel : nat) (rw mw y h x : Z) :
  rw <= x -> tiles_row fuel rw mw y h x = Some [].
Proof. intros Hx. destruct fuel; simpl; by destruct (Z.ltb_spec x rw); try lia. Qed.

Lemma tiles_rows_done (fuel : nat) (rw rh mw mh y : Z) :
  rh <= y -> tiles_rows fuel rw rh mw mh y = Some [].
Proof. intros Hy. destruct fuel; simpl; by destruct (Z.ltb_spec y rh); try lia. Qed.

Lemma plan_single (rw rh mw mh : Z) :
  0 < rw <= mw -> 0 < rh <= mh ->
  plan rw rh mw mh = Some [mkTile 0 0 rw rh].
Proof.
  intros Hw Hh. unfold plan.
  destruct (Z.to_nat rh) as [|fh] eqn:Hfh; [lia|].
  destruct (Z.to_nat rw) as [|fw] eqn:Hfw; [lia|].
  cbn [tiles_rows]. rewrite Hfw. cbn [tiles_row].
  destruct (Z.ltb_spec 0 rh); [|lia]. destruct (Z.ltb_spec 0 rw); [|lia].
  rewrite tiles_row_done, tiles_rows_done by lia.
  replace (if 0 + mw <=? rw then mw else rw - 0) with rw
    by (destruct (Z.leb_spec (0 + mw) rw); lia).
  replace (if 0 + mh <=? rh then mh else rh - 0) with rh
    by (destruct (Z.leb_spec (0 + mh) rh); lia).
  reflexivity.
Qed.

(** X19.  A region that is within the per-tile maxima is captured as one tile,
    the region itself: under native capture when it measures at most
    4095 x 16383 pixels and neither side exceeds [limits[0]]. *)
Theorem single_tile env req :
  use_native env req = true ->
  0 < width req <= 4095 -> 0 < height req <= 16383 ->
  width req <= fst (limits (scl env req)) ->
  height req <= fst (limits (scl env req)) ->
  request_tiles env req = Some [mkTile 0 0 (width req) (height req)] /\
  tile_count env req = 1.
Proof.
  intros Hn Hw Hh Hlw Hlh.
  assert (Hmax : request_max env req = (width req, height req)).
  { unfold request_max, tile_max. rewrite Hn. f_equal; lia. }
  unfold request_tiles, tile_count. rewrite Hmax. cbn [fst snd]. split.
  - apply plan_single; lia.
  - unfold ceil_div.
    assert (H1 : - width req / width req = -1).
    { replace (- width req) with (-1 * width req) by lia. apply Z.div_mul. lia. }
    assert (H2 : - height req / height req = -1).
    { replace (- height req) with (-1 * height req) by lia. apply Z.div_mul. lia. }
    rewrite H1, H2. reflexivity.
Qed.

(** The theorem at a 4095 x 8191 region at scale 4. *)
Lemma single_tile_witness :
  request_tiles sample_env (sample_request 4095 8191 4)
  = Some [mkTile 0 0 (width (sample_request 4095 8191 4))
                     (height (sample_request 4095 8191 4))] /\
  tile_count sample_env (sample_request 4095 8191 4) = 1.
Proof.
  apply (single_tile sample_env (sample_request 4095 8191 4)).
  - reflexivity.
  - simpl. lia.
  - simpl. lia.
  - vm_compute. discriminate.
  - vm_compute. discriminate.
Defined.


(** *** Encoding *)








(** *** The order of the calls *)

(** X21.  The calls of a request that gets its lock and its buffer come in
    phases: the toolbar button is disabled first; then the composite buffer
    is created and the compensator and the badge are set up; then come the
    capture jobs; then the page is restored; then the badge, the button,
    the encoding and the delivery; and the clean-up last.  No capture is
    issued once the page is restored, and the page is not changed once the
    button is enabled again. *)
Theorem request_phases env req clk tbl ts :
  (lock_tab env (init tbl (t_lock clk))).1 = true ->
  allocates env req ->
  request_tiles env req = Some ts ->
  exists s pre caps rest post fin,
    TakeScreenshot env req clk tbl = Some s /\
    log s = pre ++ caps ++ rest ++ post ++ fin /\
    head pre = Some EDisable /\
    Forall (fun e => of_start e = true) pre /\
    Forall (fun e => of_capture e = true) caps /\
    Forall (fun e => of_restore e = true) rest /\
    Forall (fun e => of_delivery e = true) post /\
    Forall (fun e => of_finally e = true) fin.
Proof.
  intros Hgot Halloc Hts.
  pose proof (lock_tab_quiet env (init tbl (t_lock clk))) as [Hl0 _].
  set (s0 := (lock_tab env (init tbl (t_lock clk))).2) in *.
  cbn [log init] in Hl0.
  set (s1 := before_capture env req s0).
  set (s2 := capture_all env req (tile_count env req) ts s1).
  set (s3 := restoreScrollPosition req s2).
  set (s4 := finish env req clk s2).
  destruct (logs_before env req s0) as (pre & H1 & F1). fold s1 in H1.
  destruct (logs_capture_all env req (tile_count env req) ts s1) as (caps & H2 & F2).
  fold s2 in H2.
  destruct (logs_restore req s2) as (rest & H3 & F3). fold s3 in H3.
  destruct (logs_finish env req clk s2) as (post & H4 & F4). fold s3 s4 in H4.
  destruct (logs_finally env clk s4) as (fin & H5 & F5).
  exists (finally_block env clk s4), pre, caps, rest, post, fin.
  split; [by apply request_succeeds|].
  split; [rewrite H5, H4, H3, H2, H1, Hl0; by rewrite <- !app_assoc|].
  split; [|done].
  revert H1. subst s1. unfold before_capture.
  destruct (allocates_next env req (emit EDisable s0) Halloc) as (s' & Hs').
  rewrite Hs'. intros H1.
  assert (Hs : logs of_start (emit EDisable s0) (prepare env req s')).
  { apply (logs_trans _ _ s'); [|eapply logs_impl; [|apply logs_prepare]].
    - revert Hs'. unfold allocate. split_ifs; intros [= <-]; logs_chain.
    - intros e He. destruct e; try done; simpl in *; rewrite He; apply orb_true_r. }
  destruct Hs as (es & Hes & _). rewrite H1 in Hes. autorewrite with st in Hes.
  rewrite Hl0 in Hes. cbn [app] in Hes. by rewrite Hes.
Qed.

(** The theorem at a 5000 x 100 region at scale 1. *)
Lemma request_phases_witness :
  exists s pre caps rest post fin,
    TakeScreenshot sample_env (sample_request 5000 100 1) sample_clock ∅ = Some s /\
    log s = pre ++ caps ++ rest ++ post ++ fin /\
    head pre = Some EDisable /\
    Forall (fun e => of_start e = true) pre /\
    Forall (fun e => of_capture e = true) caps /\
    Forall (fun e => of_restore e = true) rest /\
    Forall (fun e => of_delivery e = true) post /\
    Forall (fun e => of_finally e = true) fin.
Proof.
  apply (request_phases sample_env (sample_request 5000 100 1) sample_clock ∅
           [mkTile 0 0 4095 100; mkTile 4095 0 905 100]).
  - vm_compute. reflexivity.
  - left. vm_compute. reflexivity.
  - vm_compute. reflexivity.
Defined.

(** *** The strategy that is never chosen *)

(** X22.  Whatever the browser and the request, the scroll-based strategy is not
    selected: the flag [use_js_scroll] is false, the closure of that
    strategy is never bound to [restoreScrollPosition], and a capture job
    without native capture is the job of the transform-based strategy. *)
Theorem js_scroll_never_selected env req :
  use_js_scroll env req = false /\
  (forall s, restore s <> RestoreJs ->
             restore (setup_compensator env req s) <> RestoreJs) /\
  (forall n t s, use_native env req = false ->
     capture_tile env req n t s
     = let s := if badge env then emit (ESetBadgeText (text_count n)) s else s in
       let s := (updateScrollPosition_css req (left req + tile_x t) (top req + tile_y t)
                   (tile_w t) (tile_h t) s).2 in
       if BROWSER_VERSION_MAJOR env >=? 59
       then emit (ECaptureTab None) s else emit ECaptureVisibleTab s).
Proof.
  split; [|split].
  - unfold use_js_scroll, use_css_croll. by destruct (use_native env req).
  - intros s Hs. unfold setup_compensator, use_js_scroll, use_css_croll.
    destruct (use_native env req), (region_full req); cbn; done.
  - intros n t s Hn. unfold capture_tile, use_css_croll. by rewrite Hn.
Qed.

End RequestFacts.

(** ** The tiles on the drawable surface *)

Module SurfaceFacts.

Lemma in_dest_covers (t : Tile) (scl px py : Z) :
  1 <= scl ->
  in_rect (draw_dest t scl) px py <-> covers t (px / scl) (py / scl).
Proof.
  intros Hscl. unfold in_rect, draw_dest, covers. cbn [rect_x rect_y rect_width rect_height].
  pose proof (Z.div_mod px scl ltac:(lia)) as Hx.
  pose proof (Z.mod_pos_bound px scl ltac:(lia)) as Hxm.
  pose proof (Z.div_mod py scl ltac:(lia)) as Hy.
  pose proof (Z.mod_pos_bound py scl ltac:(lia)) as Hym.
  split; intros [[H1 H2] [H3 H4]]; (split; split); nia.
Qed.

(** X23.  At a whole device scale, the destination rectangles at which the
    tiles of the planner are drawn on the drawable surface lie inside the
    surface of [rw * scl] by [rh * scl] pixels, cover each of its pixels,
    and no two of them share a pixel. *)
Theorem surface_tiles_partition (rw rh mw mh scl : Z) :
  0 < rw -> 0 < rh -> 0 < mw -> 0 < mh -> 1 <= scl ->
  exists ts,
    Planner.plan rw rh mw mh = Some ts /\
    (forall t px py, t ∈ ts -> in_rect (draw_dest t scl) px py ->
                     0 <= px < rw * scl /\ 0 <= py < rh * scl) /\
    (forall px py, 0 <= px < rw * scl -> 0 <= py < rh * scl ->
                   exists t, t ∈ ts /\ in_rect (draw_dest t scl) px py) /\
    (forall (i j : nat) t1 t2 px py,
        i <> j -> ts !! i = Some t1 -> ts !! j = Some t2 ->
        ~ (in_rect (draw_dest t1 scl) px py /\ in_rect (draw_dest t2 scl) px py)).
Proof.
  intros Hrw Hrh Hmw Hmh Hscl.
  destruct (PlannerFacts.plan_grid rw rh mw mh Hrw Hrh Hmw Hmh)
    as (ts & Hts & Hall & Hcov & Hdis).
  exists ts. split; [exact Hts|]. rewrite Forall_forall in Hall. split; [|split].
  - intros t px py Ht [[H1 H2] [H3 H4]]. cbn [draw_dest rect_x rect_y rect_width rect_height] in *.
    destruct (Hall t Ht) as (? & ? & ? & ? & ? & ? & _). split; nia.
  - intros px py Hpx Hpy.
    destruct (Hcov (px / scl) (py / scl)) as (t & Ht & Hc).
    + split; [apply Z.div_pos; lia | apply Z.div_lt_upper_bound; lia].
    + split; [apply Z.div_pos; lia | apply Z.div_lt_upper_bound; lia].
    + exists t. split; [exact Ht | by apply in_dest_covers].
  - intros i j t1 t2 px py Hij H1 H2 [Hc1 Hc2].
    apply in_dest_covers in Hc1; [|done]. apply in_dest_covers in Hc2; [|done].
    eapply (pairwise_lookup tiles_disjoint); eauto.
    apply PlannerFacts.tiles_disjoint_sym.
Qed.

(** The theorem for a region of 3 x 2 pixels cut into tiles of at most
    2 x 1 at scale 2. *)
Lemma surface_tiles_partition_witness :
  exists ts,
    Planner.plan 3 2 2 1 = Some ts /\
    (forall t px py, t ∈ ts -> in_rect (draw_dest t 2) px py ->
                     0 <= px < 3 * 2 /\ 0 <= py < 2 * 2) /\
    (forall px py, 0 <= px < 3 * 2 -> 0 <= py < 2 * 2 ->
                   exists t, t ∈ ts /\ in_rect (draw_dest t 2) px py) /\
    (forall (i j : nat) t1 t2 px py,
        i <> j -> ts !! i = Some t1 -> ts !! j = Some t2 ->
        ~ (in_rect (draw_dest t1 2) px py /\ in_rect (draw_dest t2 2) px py)).
Proof. apply (surface_tiles_partition 3 2 2 1 2); lia. Defined.

End SurfaceFacts.
